(** * Verification of the merco backtest core (thoth)

    Shallow embedding of [models/exchange.rs], [strategy/context.rs] and
    [tasks/backtest.rs].

    Modelling choices:
    - [BigDecimal] is modelled by the rationals [Q]: addition, subtraction
      and multiplication of [BigDecimal] are exact, and division is taken
      exact as well (the crate computes quotients to a bounded number of
      digits, which only matters for operands of more than a hundred digits);
      [BigDecimal]'s [==] and [<=] compare numerically, as [Qeq] and [Qle] do.
    - [Uuid::new_v4()] is an argument of the operations that draw one.
    - [f32]/[f64] arithmetic in the Sharpe ratio is kept abstract. *)

From Stdlib Require Import QArith Qround Lqa ZArith Lia List String Bool.
Import ListNotations.
Open Scope Q_scope.

(** ** [bigdecimal::RoundingMode] and [with_scale_round(0, mode)] *)

Inductive RoundingMode :=
| Up | Down | Ceiling | Floor | HalfUp | HalfDown | HalfEven.

(** Floor and ceiling of a rational. *)
Definition q_floor (x : Q) : Z := (Qnum x / Zpos (Qden x))%Z.
Definition q_ceil (x : Q) : Z := (- ((- Qnum x) / Zpos (Qden x)))%Z.

(** [x.with_scale_round(0, mode)]: the integer obtained from [x] with
    [mode]; [Down] rounds toward zero and [Up] away from zero. *)
Definition with_scale_round0 (x : Q) (mode : RoundingMode) : Z :=
  let fl := q_floor x in
  let nonneg := (0 <=? Qnum x)%Z in
  (* compare the fractional part [x - fl] against one half *)
  let half := Z.compare (2 * (Qnum x - fl * Zpos (Qden x)))%Z (Zpos (Qden x)) in
  match mode with
  | Floor => fl
  | Ceiling => q_ceil x
  | Down => if nonneg then fl else q_ceil x
  | Up => if nonneg then q_ceil x else fl
  | HalfUp =>
      match half with
      | Lt => fl | Gt => (fl + 1)%Z
      | Eq => if nonneg then (fl + 1)%Z else fl
      end
  | HalfDown =>
      match half with
      | Lt => fl | Gt => (fl + 1)%Z
      | Eq => if nonneg then fl else (fl + 1)%Z
      end
  | HalfEven =>
      match half with
      | Lt => fl | Gt => (fl + 1)%Z
      | Eq => if Z.even fl then fl else (fl + 1)%Z
      end
  end.

(** ** [models/exchange.rs] *)

Record TradingFees := mkTradingFees { maker : Q; taker : Q }.

Record MarketPrecision := mkMarketPrecision {
  price_precision : Q;
  amount_precision : Q
}.

Definition is_zero (x : Q) : bool := Qeq_bool x 0.

Definition round_price (self : MarketPrecision) (value : Q) (mode : RoundingMode) : Q :=
  if is_zero (price_precision self) then value
  else
    let divided := value / price_precision self in
    let floored := with_scale_round0 divided mode in
    inject_Z floored * price_precision self.

Definition round_amount (self : MarketPrecision) (value : Q) (mode : RoundingMode) : Q :=
  if is_zero (amount_precision self) then value
  else
    let divided := value / amount_precision self in
    let floored := with_scale_round0 divided mode in
    inject_Z floored * amount_precision self.

Example round_amount_down_ex :
  round_amount (mkMarketPrecision 1 (1#10)) (37#100) Down = 3 # 10.
Proof. reflexivity. Qed.

Example round_amount_down_neg_ex :
  round_amount (mkMarketPrecision 1 (1#10)) (-37#100) Down = -3 # 10.
Proof. reflexivity. Qed.

Example round_amount_up_ex :
  round_amount (mkMarketPrecision 1 (1#10)) (31#100) Up = 4 # 10.
Proof. reflexivity. Qed.

(** ** Rounding lemmas *)

Lemma q_floor_ceil_bounds (a : Z) (d : positive) :
  (a / Zpos d <= - ((- a) / Zpos d) <= a / Zpos d + 1)%Z /\
  ((a / Zpos d) * Zpos d = a \/ - ((- a) / Zpos d) = a / Zpos d + 1)%Z.
Proof.
  pose proof (Z.div_mod a (Zpos d) ltac:(lia)) as H1.
  pose proof (Z.mod_pos_bound a (Zpos d) ltac:(lia)) as B1.
  pose proof (Z.div_mod (- a) (Zpos d) ltac:(lia)) as H2.
  pose proof (Z.mod_pos_bound (- a) (Zpos d) ltac:(lia)) as B2.
  set (q1 := (a / Zpos d)%Z) in *. set (q2 := ((- a) / Zpos d)%Z) in *.
  set (r1 := (a mod Zpos d)%Z) in *. set (r2 := ((- a) mod Zpos d)%Z) in *.
  assert (Hs : (Zpos d * (q1 + q2) = - (r1 + r2))%Z) by lia.
  assert (q1 + q2 <= 0 /\ -1 <= q1 + q2)%Z as [Hq1 Hq2] by nia.
  split; [lia|].
  destruct (Z.eq_dec r1 0) as [E|E].
  - left. lia.
  - right. assert (q1 + q2 <> 0)%Z by nia. lia.
Qed.

Lemma with_scale_round0_bounds (x : Q) (mode : RoundingMode) :
  (q_floor x <= with_scale_round0 x mode <= q_ceil x)%Z.
Proof.
  destruct x as [a d]. unfold with_scale_round0, q_floor, q_ceil; simpl.
  destruct (q_floor_ceil_bounds a d) as [[L U] [Ex|Ex]].
  - destruct mode; try (destruct (0 <=? a)%Z); try lia;
      rewrite Ex, Z.sub_diag; simpl; lia.
  - destruct mode; try (destruct (0 <=? a)%Z);
      try (destruct (Z.compare _ _)); try (destruct (Z.even _)); lia.
Qed.

Lemma with_scale_round0_nonneg (x : Q) (mode : RoundingMode) :
  0 <= x -> (0 <= with_scale_round0 x mode)%Z.
Proof.
  intros Hx. pose proof (with_scale_round0_bounds x mode) as [L _].
  destruct x as [a d]. unfold Qle in Hx; simpl in Hx.
  unfold q_floor in L; simpl in L.
  pose proof (Z.div_pos a (Zpos d) ltac:(lia) ltac:(lia)). lia.
Qed.

Lemma with_scale_round0_nonpos (x : Q) (mode : RoundingMode) :
  x <= 0 -> (with_scale_round0 x mode <= 0)%Z.
Proof.
  intros Hx. pose proof (with_scale_round0_bounds x mode) as [_ U].
  destruct x as [a d]. unfold Qle in Hx; simpl in Hx.
  unfold q_ceil in U; simpl in U.
  pose proof (Z.div_pos (- a) (Zpos d) ltac:(lia) ltac:(lia)). lia.
Qed.

(** Rounding an integral value gives that integer back, whatever the mode. *)
Lemma with_scale_round0_int (x : Q) (n : Z) (mode : RoundingMode) :
  x == inject_Z n -> with_scale_round0 x mode = n.
Proof.
  destruct x as [a d]. unfold Qeq; simpl. rewrite Z.mul_1_r. intros ->.
  unfold with_scale_round0, q_floor, q_ceil; simpl.
  rewrite Z.div_mul by lia.
  replace (- (n * Zpos d))%Z with ((- n) * Zpos d)%Z by lia.
  rewrite Z.div_mul by lia. rewrite Z.sub_diag, Z.opp_involutive. simpl.
  destruct mode; try destruct (0 <=? n * Zpos d)%Z; reflexivity.
Qed.

Lemma round_amount_nonneg (p : MarketPrecision) (x : Q) (mode : RoundingMode) :
  0 <= x -> 0 <= round_amount p x mode.
Proof.
  intros Hx. unfold round_amount.
  destruct (is_zero (amount_precision p)) eqn:Z0; [exact Hx|].
  set (s := amount_precision p) in *.
  assert (Hs : ~ s == 0) by (unfold is_zero in Z0; intro E; apply Qeq_bool_iff in E; congruence).
  destruct (Qlt_le_dec 0 s) as [Pos|Neg].
  - assert (0 <= x / s).
    { unfold Qdiv. apply Qmult_le_0_compat; [exact Hx|].
      apply Qlt_le_weak, Qinv_lt_0_compat, Pos. }
    pose proof (with_scale_round0_nonneg _ mode H) as Hn.
    apply Qmult_le_0_compat; [|lra].
    unfold Qle; simpl; lia.
  - assert (Neg' : s < 0) by (apply Qle_lteq in Neg as [N|N]; [exact N|]; exfalso; apply Hs; exact N).
    assert (x / s <= 0).
    { unfold Qdiv. setoid_replace (x * / s) with (- (x * / (- s))).
      - assert (0 <= x * / (- s)).
        { apply Qmult_le_0_compat; [exact Hx|].
          apply Qlt_le_weak, Qinv_lt_0_compat. lra. }
        lra.
      - assert (E : / (- s) == - / s) by (destruct s as [[|p'|p'] d]; reflexivity).
        rewrite E. ring. }
    pose proof (with_scale_round0_nonpos _ mode H) as Hn.
    setoid_replace (inject_Z (with_scale_round0 (x / s) mode) * s)
      with ((- inject_Z (with_scale_round0 (x / s) mode)) * (- s)) by ring.
    apply Qmult_le_0_compat; [|lra].
    assert (inject_Z (with_scale_round0 (x / s) mode) <= 0) by (unfold Qle; simpl; lia).
    lra.
Qed.

(** C9: [round_amount] is idempotent for every rounding mode, also when the
    amount step is zero (and for any non-zero step, whatever its sign). *)
Theorem round_amount_idempotent (p : MarketPrecision) (x : Q) (mode : RoundingMode) :
  round_amount p (round_amount p x mode) mode = round_amount p x mode.
Proof.
  unfold round_amount at 2.
  destruct (is_zero (amount_precision p)) eqn:Z0.
  - unfold round_amount. rewrite Z0. reflexivity.
  - set (n := with_scale_round0 (x / amount_precision p) mode).
    unfold round_amount. rewrite Z0. f_equal. f_equal.
    apply with_scale_round0_int.
    assert (Hs : ~ amount_precision p == 0)
      by (unfold is_zero in Z0; intro E; apply Qeq_bool_iff in E; congruence).
    unfold Qdiv. rewrite <- Qmult_assoc, Qmult_inv_r by exact Hs. apply Qmult_1_r.
Qed.

(** ** Errors and a state-and-error monad

    A method on [&mut self] returning [AppResult<A>] is a function from the
    context to a result and the context as the method leaves it: an early
    [return Err(..)] keeps the mutations made so far. *)

Inductive AppError :=
| Strategy (msg : string)
| Other (msg : string).

Definition error_to_string (e : AppError) : string :=
  match e with Strategy m => m | Other m => m end.

Inductive AppResult (A : Type) :=
| Ok (a : A)
| Err (e : AppError).
Arguments Ok {A} a.
Arguments Err {A} e.

Definition M (S A : Type) := S -> AppResult A * S.

Definition ret {S A} (a : A) : M S A := fun s => (Ok a, s).
Definition bind {S A B} (m : M S A) (k : A -> M S B) : M S B :=
  fun s => match m s with
           | (Ok a, s') => k a s'
           | (Err e, s') => (Err e, s')
           end.
Definition throw {S A} (e : AppError) : M S A := fun s => (Err e, s).
Definition get {S} : M S S := fun s => (Ok s, s).
Definition modify {S} (f : S -> S) : M S unit := fun s => (Ok tt, f s).
(** [e?] on a value that does not touch the state. *)
Definition lift {S A} (r : AppResult A) : M S A := fun s => (r, s).
(** Run [m] and hand its result, success or error, to the caller. *)
Definition attempt {S A} (m : M S A) : M S (AppResult A) :=
  fun s => let '(r, s') := m s in (Ok r, s').

Notation "x <- m ;; k" := (bind m (fun x => k))
  (at level 61, m at next level, right associativity).
Notation "m ;;; k" := (bind m (fun _ => k)) (at level 61, right associativity).

Fixpoint for_each {S A} (l : list A) (body : A -> M S unit) : M S unit :=
  match l with
  | [] => ret tt
  | x :: l' => body x ;;; for_each l' body
  end.

(** ** [strategy/context.rs]: data *)

(** [models::Candle] (timestamps in milliseconds). *)
Record Candle := mkCandle {
  c_timestamp : Z;
  c_open : Q; c_high : Q; c_low : Q; c_close : Q; c_volume : Q
}.

Inductive TradeType := MarketBuy | MarketSell | LimitBuy | LimitSell.

Record Trade := mkTrade {
  t_timestamp : Z;
  trade_type : TradeType;
  t_price : Q;
  t_amount : Q;
  t_fee : Q;
  profit : option Q
}.

Inductive OrderType := OLimitBuy | OLimitSell.

(** [Uuid] *)
Definition Uuid := nat.

Record Order := mkOrder {
  id : Uuid;
  order_type : OrderType;
  o_price : Q;
  o_amount : Q;
  o_fee : Q
}.

Record StrategyContext := mkCtx {
  candles : list Candle;
  balance : Q;
  position : Q;
  trades : list Trade;
  orders : list Order;
  fees : TradingFees;
  precision : MarketPrecision
}.

Definition CtxM := M StrategyContext.

Definition set_candles f (s : StrategyContext) :=
  mkCtx (f (candles s)) (balance s) (position s) (trades s) (orders s) (fees s) (precision s).
Definition set_balance f (s : StrategyContext) :=
  mkCtx (candles s) (f (balance s)) (position s) (trades s) (orders s) (fees s) (precision s).
Definition set_position f (s : StrategyContext) :=
  mkCtx (candles s) (balance s) (f (position s)) (trades s) (orders s) (fees s) (precision s).
Definition set_trades f (s : StrategyContext) :=
  mkCtx (candles s) (balance s) (position s) (f (trades s)) (orders s) (fees s) (precision s).
Definition set_orders f (s : StrategyContext) :=
  mkCtx (candles s) (balance s) (position s) (trades s) (f (orders s)) (fees s) (precision s).

Fixpoint last_opt {A} (l : list A) : option A :=
  match l with
  | [] => None
  | [x] => Some x
  | _ :: l' => last_opt l'
  end.

(** [Iterator::position] and [Vec::remove]. *)
Fixpoint position_of {A} (p : A -> bool) (l : list A) : option nat :=
  match l with
  | [] => None
  | x :: l' => if p x then Some 0%nat else option_map S (position_of p l')
  end.

Fixpoint remove_at {A} (n : nat) (l : list A) : list A :=
  match l, n with
  | [], _ => []
  | _ :: l', O => l'
  | x :: l', S n' => x :: remove_at n' l'
  end.

Definition qgt (a b : Q) : bool := negb (Qle_bool a b).   (* a > b *)
Definition qlt (a b : Q) : bool := negb (Qle_bool b a).   (* a < b *)

(** ** [strategy/context.rs]: operations *)

Definition new (balance : Q) (fees : TradingFees) (precision : MarketPrecision)
  : AppResult StrategyContext :=
  Ok (mkCtx [] balance 0 [] [] fees precision).

Definition candle (self : StrategyContext) : AppResult Candle :=
  match last_opt (candles self) with
  | Some c => Ok c
  | None => Err (Strategy "No candles available")
  end.

Definition execute_limit_buy (candle : Candle) (price amount fee : Q) : CtxM unit :=
  modify (set_position (fun p => p + amount)) ;;;
  modify (set_trades (fun ts =>
    ts ++ [mkTrade (c_timestamp candle) LimitBuy price amount fee None])).

Definition execute_limit_sell (candle : Candle) (price amount fee : Q) : CtxM unit :=
  let proceeds := price * amount in
  modify (set_balance (fun b => b + proceeds)) ;;;
  modify (set_trades (fun ts =>
    ts ++ [mkTrade (c_timestamp candle) LimitSell price amount fee None])).

(** The fill test of the first loop of [before]. *)
Definition fills (candle : Candle) (order : Order) : bool :=
  match order_type order with
  | OLimitBuy => Qle_bool (c_low candle) (o_price order)
  | OLimitSell => Qle_bool (o_price order) (c_high candle)
  end.

(** [before]: the first loop collects the (cloned) orders to execute, the
    second executes each one and then [retain]s the orders of another id. *)
Definition before : CtxM unit :=
  self <- get ;;
  candle <- lift (candle self) ;;
  let orders_to_execute :=
    flat_map (fun order => if fills candle order then [order] else []) (orders self) in
  for_each orders_to_execute (fun o =>
    (match order_type o with
     | OLimitBuy => execute_limit_buy candle (o_price o) (o_amount o) (o_fee o)
     | OLimitSell => execute_limit_sell candle (o_price o) (o_amount o) (o_fee o)
     end) ;;;
    modify (set_orders (filter (fun o' => negb (Nat.eqb (id o') (id o)))))) ;;;
  ret tt.

Definition after : CtxM unit := ret tt.

Definition cancel_order (order_id : Uuid) : CtxM unit :=
  self <- get ;;
  match position_of (fun o => Nat.eqb (id o) order_id) (orders self) with
  | None => ret tt
  | Some pos =>
      match nth_error (orders self) pos with
      | None => ret tt   (* [pos] is in range: not reached *)
      | Some order =>
          (match order_type order with
           | OLimitBuy =>
               let refund := o_price order * o_amount order + o_fee order in
               modify (set_balance (fun b => b + refund))
           | OLimitSell =>
               modify (set_position (fun p => p + o_amount order)) ;;;
               modify (set_balance (fun b => b + o_fee order))
           end) ;;;
          modify (set_orders (remove_at pos))
      end
  end.

Definition end_ : CtxM unit :=
  self <- get ;;
  let order_ids := map id (orders self) in
  for_each order_ids cancel_order ;;;
  ret tt.

Definition market_buy (amount : Q) : CtxM unit :=
  self <- get ;;
  let amount := round_amount (precision self) amount Down in
  if Qle_bool amount 0 then throw (Strategy "Amount must be positive") else
  candle <- lift (candle self) ;;
  let price := c_close candle in
  let cost := price * amount in
  let fee := cost * taker (fees self) in
  let fee := round_amount (precision self) fee Up in
  let total := cost + fee in
  if qgt total (balance self) then throw (Strategy "Insufficient funds") else
  modify (set_balance (fun b => b - total)) ;;;
  modify (set_position (fun p => p + amount)) ;;;
  modify (set_trades (fun ts =>
    ts ++ [mkTrade (c_timestamp candle) MarketBuy price amount fee None])).

Definition market_sell (amount : Q) : CtxM unit :=
  self <- get ;;
  let amount := round_amount (precision self) amount Down in
  if Qle_bool amount 0 then throw (Strategy "Amount must be positive") else
  if qgt amount (position self)
  then throw (Strategy "Insufficient base asset amount to sell") else
  candle <- lift (candle self) ;;
  let price := c_close candle in
  let proceeds := price * amount in
  let fee := round_amount (precision self) (proceeds * taker (fees self)) Up in
  let revenue := proceeds - fee in
  if qlt revenue 0 then throw (Strategy "Revenue cannot be negative") else
  modify (set_position (fun p => p - amount)) ;;;
  modify (set_balance (fun b => b + revenue)) ;;;
  modify (set_trades (fun ts =>
    ts ++ [mkTrade (c_timestamp candle) MarketSell price amount fee None])).

(** [order_id] is the value [Uuid::new_v4()] returns. *)
Definition limit_buy (price amount : Q) (order_id : Uuid) : CtxM (option Uuid) :=
  self <- get ;;
  let price := round_amount (precision self) price Down in
  let amount := round_amount (precision self) amount Down in
  if Qle_bool amount 0 then throw (Strategy "Amount must be positive") else
  candle <- lift (candle self) ;;
  if Qle_bool (c_close candle) price then (market_buy amount ;;; ret None) else
  let cost := amount * price in
  let fee := cost * maker (fees self) in
  let fee := round_amount (precision self) fee Up in
  let total := cost + fee in
  if qgt total (balance self) then throw (Strategy "Insufficient funds") else
  modify (set_balance (fun b => b - total)) ;;;
  modify (set_orders (fun os => os ++ [mkOrder order_id OLimitBuy price amount fee])) ;;;
  ret (Some order_id).

Definition limit_sell (price amount : Q) (order_id : Uuid) : CtxM (option Uuid) :=
  self <- get ;;
  let price := round_amount (precision self) price Down in
  let amount := round_amount (precision self) amount Down in
  if Qle_bool amount 0 then throw (Strategy "Amount must be positive") else
  if qgt amount (position self)
  then throw (Strategy "Insufficient base asset amount to sell") else
  candle <- lift (candle self) ;;
  if Qle_bool price (c_close candle) then (market_sell amount ;;; ret None) else
  let proceeds := price * amount in
  let fee := round_amount (precision self) (proceeds * maker (fees self)) Up in
  if qgt fee (balance self) then throw (Strategy "Insufficient funds to cover fee") else
  modify (set_position (fun p => p - amount)) ;;;
  modify (set_balance (fun b => b - fee)) ;;;
  modify (set_orders (fun os => os ++ [mkOrder order_id OLimitSell price amount fee])) ;;;
  ret (Some order_id).

(** The public operations a strategy (and the backtest loop, which pushes
    the candles) applies to a context. *)
Inductive Op :=
| OpPushCandle (c : Candle)
| OpMarketBuy (amount : Q)
| OpMarketSell (amount : Q)
| OpLimitBuy (price amount : Q) (order_id : Uuid)
| OpLimitSell (price amount : Q) (order_id : Uuid)
| OpCancel (order_id : Uuid)
| OpBefore
| OpAfter
| OpEnd.

Definition run_op (op : Op) : CtxM unit :=
  match op with
  | OpPushCandle c => modify (set_candles (fun cs => cs ++ [c]))
  | OpMarketBuy a => market_buy a
  | OpMarketSell a => market_sell a
  | OpLimitBuy p a i => limit_buy p a i ;;; ret tt
  | OpLimitSell p a i => limit_sell p a i ;;; ret tt
  | OpCancel i => cancel_order i
  | OpBefore => before
  | OpAfter => after
  | OpEnd => end_
  end.

(** The context after a sequence of operations that all succeed. *)
Fixpoint run_ops (ops : list Op) (ctx : StrategyContext) : option StrategyContext :=
  match ops with
  | [] => Some ctx
  | op :: ops' =>
      match run_op op ctx with
      | (Ok _, ctx') => run_ops ops' ctx'
      | (Err _, _) => None
      end
  end.

Definition candle0 : Candle := mkCandle 1000 100 110 90 100 5.
Definition fees0 : TradingFees := mkTradingFees (1#1000) (2#1000).
Definition prec0 : MarketPrecision := mkMarketPrecision (1#100) (1#1000).
Definition ctx_b10 : StrategyContext := mkCtx [candle0] 10 0 [] [] fees0 prec0.

Example market_buy_insufficient_ex :
  market_buy 1 ctx_b10 = (Err (Strategy "Insufficient funds"), ctx_b10).
Proof. vm_compute. reflexivity. Qed.

Example limit_cycle_ex :
  match run_ops [OpLimitBuy 95 1 7%nat; OpPushCandle (mkCandle 2000 96 97 94 95 1); OpBefore]
          (mkCtx [candle0] 1000 0 [] [] fees0 prec0) with
  | Some c => Qeq_bool (position c) 1 && Qeq_bool (balance c) (1000 - 95 - (95#1000))
              && (List.length (orders c) =? 0)%nat && (List.length (trades c) =? 1)%nat
  | None => false
  end = true.
Proof. vm_compute. reflexivity. Qed.

(** ** Helper lemmas on the list operations *)

Lemma position_of_app_fresh (l : list Order) (o : Order) :
  ~ In (id o) (map id l) ->
  position_of (fun o' => Nat.eqb (id o') (id o)) (l ++ [o]) = Some (List.length l).
Proof.
  induction l as [|x l IH]; simpl; intros Hn.
  - rewrite Nat.eqb_refl. reflexivity.
  - destruct (Nat.eqb (id x) (id o)) eqn:E.
    + apply Nat.eqb_eq in E. exfalso. apply Hn. left. exact E.
    + rewrite IH by tauto. reflexivity.
Qed.

Lemma nth_error_app_last {A} (l : list A) (x : A) :
  nth_error (l ++ [x]) (List.length l) = Some x.
Proof. induction l; simpl; auto. Qed.

Lemma remove_at_app_last {A} (l : list A) (x : A) :
  remove_at (List.length l) (l ++ [x]) = l.
Proof. induction l; simpl; [reflexivity| now rewrite IHl]. Qed.

Lemma Qle_bool_false (a b : Q) : Qle_bool a b = false <-> b < a.
Proof.
  split; intros H.
  - apply Qnot_le_lt. intro L. apply Qle_bool_iff in L. congruence.
  - destruct (Qle_bool a b) eqn:E; [|reflexivity].
    apply Qle_bool_iff in E. exfalso. apply (Qlt_not_le _ _ H E).
Qed.

Lemma qgt_true (a b : Q) : qgt a b = true <-> b < a.
Proof. unfold qgt. rewrite negb_true_iff. apply Qle_bool_false. Qed.

Lemma qgt_false (a b : Q) : qgt a b = false <-> a <= b.
Proof. unfold qgt. rewrite negb_false_iff. apply Qle_bool_iff. Qed.

Lemma qlt_false (a b : Q) : qlt a b = false <-> b <= a.
Proof. unfold qlt. rewrite negb_false_iff. apply Qle_bool_iff. Qed.

Lemma candle_some (self : StrategyContext) (c : Candle) :
  candle self = Ok c -> last_opt (candles self) = Some c.
Proof.
  unfold candle. destruct (last_opt (candles self)); intro H; inversion H; reflexivity.
Qed.

(** Closes a comparison of concrete rationals. *)
Ltac decide_q :=
  first [ reflexivity | vm_compute; reflexivity | vm_compute; intro; discriminate ].

Ltac unfold_monad :=
  unfold bind, get, ret, throw, modify, lift in *.

(** C4: when the rounded amount is positive, a candle is present and
    [cost + fee > balance], [market_buy] fails with the insufficient-funds
    error and returns the context exactly as it was: balance, position,
    orders, candles and journal unchanged, no journal entry added. *)
Theorem market_buy_insufficient_unchanged
  (self : StrategyContext) (amount : Q) (c : Candle) :
  let a := round_amount (precision self) amount Down in
  let cost := c_close c * a in
  let fee := round_amount (precision self) (cost * taker (fees self)) Up in
  0 < a ->
  candle self = Ok c ->
  balance self < cost + fee ->
  market_buy amount self = (Err (Strategy "Insufficient funds"), self).
Proof.
  intros a cost fee Ha Hc Hgt.
  unfold market_buy. unfold_monad.
  fold a. rewrite (proj2 (Qle_bool_false a 0) Ha).
  rewrite Hc. fold cost. fold fee.
  rewrite (proj2 (qgt_true (cost + fee) (balance self)) Hgt). reflexivity.
Qed.

Lemma market_buy_insufficient_unchanged_witness :
  market_buy 1 ctx_b10 = (Err (Strategy "Insufficient funds"), ctx_b10).
Proof.
  apply (market_buy_insufficient_unchanged ctx_b10 1 candle0);
    [vm_compute; reflexivity | reflexivity | vm_compute; reflexivity].
Defined.

(** C10: with a candle present, a rounded amount in [(0, position]] and a
    rounded price above the last close (no fallback to [market_sell]),
    [limit_sell] fails with the insufficient-funds error and leaves the
    context unchanged when the rounded maker fee exceeds the balance; it
    reserves ([position -= amount], [balance -= fee]) and rests the order
    only when [fee <= balance]. *)
Theorem limit_sell_fee_check
  (self : StrategyContext) (price amount : Q) (order_id : Uuid) (c : Candle) :
  let p := round_amount (precision self) price Down in
  let a := round_amount (precision self) amount Down in
  let fee := round_amount (precision self) (p * a * maker (fees self)) Up in
  candle self = Ok c ->
  0 < a -> a <= position self -> c_close c < p ->
  (balance self < fee ->
     limit_sell price amount order_id self
     = (Err (Strategy "Insufficient funds to cover fee"), self)) /\
  (fee <= balance self ->
     limit_sell price amount order_id self
     = (Ok (Some order_id),
        set_orders (fun os => os ++ [mkOrder order_id OLimitSell p a fee])
          (set_balance (fun b => b - fee)
             (set_position (fun q => q - a) self)))).
Proof.
  intros p a fee Hc Ha Hpos Hp.
  unfold limit_sell. unfold_monad. fold p a.
  rewrite (proj2 (Qle_bool_false a 0) Ha).
  rewrite (proj2 (qgt_false a (position self)) Hpos).
  rewrite Hc. rewrite (proj2 (Qle_bool_false p (c_close c)) Hp). fold fee.
  split; intros Hf.
  - rewrite (proj2 (qgt_true fee (balance self)) Hf). reflexivity.
  - rewrite (proj2 (qgt_false fee (balance self)) Hf). reflexivity.
Qed.

Lemma limit_sell_fee_check_witness :
  limit_sell 120 1 3%nat (mkCtx [candle0] 0 2 [] [] fees0 prec0)
  = (Err (Strategy "Insufficient funds to cover fee"), mkCtx [candle0] 0 2 [] [] fees0 prec0).
Proof.
  refine (proj1 (limit_sell_fee_check (mkCtx [candle0] 0 2 [] [] fees0 prec0)
                   120 1 3%nat candle0 _ _ _ _) _); decide_q.
Defined.

(** The resting [LimitBuy] branch of [limit_buy]: the only path returning
    an order id. *)
Lemma limit_buy_some (self self1 : StrategyContext) (price amount : Q) (order_id r : Uuid) :
  limit_buy price amount order_id self = (Ok (Some r), self1) ->
  let p := round_amount (precision self) price Down in
  let a := round_amount (precision self) amount Down in
  let fee := round_amount (precision self) (a * p * maker (fees self)) Up in
  r = order_id /\
  self1 = set_orders (fun os => os ++ [mkOrder order_id OLimitBuy p a fee])
            (set_balance (fun b => b - (a * p + fee)) self).
Proof.
  intros H p a fee. unfold limit_buy in H.
  cbv beta iota zeta delta [bind get ret throw modify lift] in H.
  fold p a in H. fold fee in H.
  destruct (Qle_bool a 0); [discriminate|].
  destruct (candle self) as [c|e]; [|discriminate].
  destruct (Qle_bool (c_close c) p).
  - unfold market_buy, bind, get, throw, lift, modify in H.
    repeat match type of H with
           | context [if ?b then _ else _] => destruct b
           | context [match ?x with Ok _ => _ | Err _ => _ end] => destruct x
           end; discriminate.
  - destruct (qgt (a * p + fee) (balance self)); [discriminate|].
    inversion H. split; reflexivity.
Qed.

Lemma limit_sell_some (self self1 : StrategyContext) (price amount : Q) (order_id r : Uuid) :
  limit_sell price amount order_id self = (Ok (Some r), self1) ->
  let p := round_amount (precision self) price Down in
  let a := round_amount (precision self) amount Down in
  let fee := round_amount (precision self) (p * a * maker (fees self)) Up in
  r = order_id /\
  self1 = set_orders (fun os => os ++ [mkOrder order_id OLimitSell p a fee])
            (set_balance (fun b => b - fee) (set_position (fun q => q - a) self)).
Proof.
  intros H p a fee. unfold limit_sell in H.
  cbv beta iota zeta delta [bind get ret throw modify lift] in H.
  fold p a in H. fold fee in H.
  destruct (Qle_bool a 0); [discriminate|].
  destruct (qgt a (position self)); [discriminate|].
  destruct (candle self) as [c|e]; [|discriminate].
  destruct (Qle_bool p (c_close c)).
  - unfold market_sell, bind, get, throw, lift, modify in H.
    repeat match type of H with
           | context [if ?b then _ else _] => destruct b
           | context [match ?x with Ok _ => _ | Err _ => _ end] => destruct x
           end; discriminate.
  - destruct (qgt fee (balance self)); [discriminate|].
    inversion H. split; reflexivity.
Qed.

Lemma cancel_order_last (self : StrategyContext) (o : Order) :
  ~ In (id o) (map id (orders self)) ->
  cancel_order (id o) (set_orders (fun os => os ++ [o]) self)
  = (Ok tt,
     match order_type o with
     | OLimitBuy => set_balance (fun b => b + (o_price o * o_amount o + o_fee o)) self
     | OLimitSell =>
         set_balance (fun b => b + o_fee o) (set_position (fun q => q + o_amount o) self)
     end).
Proof.
  intros Hfresh. unfold cancel_order.
  cbv beta iota zeta delta [bind get ret throw modify lift].
  change (orders (set_orders (fun os => os ++ [o]) self)) with (orders self ++ [o]).
  rewrite position_of_app_fresh by exact Hfresh.
  rewrite nth_error_app_last.
  destruct self as [cs b q ts os fs pr].
  destruct (order_type o); unfold set_orders, set_balance, set_position; simpl;
    rewrite remove_at_app_last; reflexivity.
Qed.

(** C6: placing a resting [LimitBuy] (with a fresh id, as [Uuid::new_v4]
    gives) and cancelling the returned id restores the balance exactly and
    leaves the position unchanged throughout; placing a resting [LimitSell]
    and cancelling it restores both the position and the balance exactly.
    Orders, journal and candles come back as they were too. *)
Theorem limit_order_cancel_roundtrip
  (self self1 : StrategyContext) (price amount : Q) (order_id r : Uuid) :
  ~ In order_id (map id (orders self)) ->
  (limit_buy price amount order_id self = (Ok (Some r), self1) ->
   let self2 := snd (cancel_order r self1) in
   fst (cancel_order r self1) = Ok tt /\
   balance self2 == balance self /\
   position self1 = position self /\ position self2 = position self /\
   orders self2 = orders self /\ trades self2 = trades self /\
   candles self2 = candles self) /\
  (limit_sell price amount order_id self = (Ok (Some r), self1) ->
   let self2 := snd (cancel_order r self1) in
   fst (cancel_order r self1) = Ok tt /\
   balance self2 == balance self /\ position self2 == position self /\
   orders self2 = orders self /\ trades self2 = trades self /\
   candles self2 = candles self).
Proof.
  intros Hfresh. split; intros H.
  - destruct (limit_buy_some _ _ _ _ _ _ H) as [-> ->].
    set (o := mkOrder order_id OLimitBuy _ _ _).
    change order_id with (id o).
    rewrite cancel_order_last; [|exact Hfresh]. simpl.
    repeat split; try reflexivity. ring.
  - destruct (limit_sell_some _ _ _ _ _ _ H) as [-> ->].
    set (o := mkOrder order_id OLimitSell _ _ _).
    change order_id with (id o).
    rewrite cancel_order_last; [|exact Hfresh]. simpl.
    repeat split; try reflexivity; ring.
Qed.

Definition ctx_c6 : StrategyContext := mkCtx [candle0] 1000 2 [] [] fees0 prec0.

Lemma limit_order_cancel_roundtrip_witness :
  limit_buy 95 1 1%nat ctx_c6 = (Ok (Some 1%nat), snd (limit_buy 95 1 1%nat ctx_c6)) /\
  balance (snd (cancel_order 1%nat (snd (limit_buy 95 1 1%nat ctx_c6)))) == balance ctx_c6 /\
  limit_sell 105 1 1%nat ctx_c6 = (Ok (Some 1%nat), snd (limit_sell 105 1 1%nat ctx_c6)) /\
  position (snd (cancel_order 1%nat (snd (limit_sell 105 1 1%nat ctx_c6)))) == position ctx_c6.
Proof.
  assert (Hf : ~ In 1%nat (map id (orders ctx_c6))) by (simpl; tauto).
  assert (Hb : limit_buy 95 1 1%nat ctx_c6 = (Ok (Some 1%nat), snd (limit_buy 95 1 1%nat ctx_c6)))
    by (vm_compute; reflexivity).
  assert (Hs : limit_sell 105 1 1%nat ctx_c6 = (Ok (Some 1%nat), snd (limit_sell 105 1 1%nat ctx_c6)))
    by (vm_compute; reflexivity).
  destruct (limit_order_cancel_roundtrip ctx_c6 (snd (limit_buy 95 1 1%nat ctx_c6)) 95 1 1%nat 1%nat Hf) as [B _].
  destruct (limit_order_cancel_roundtrip ctx_c6 (snd (limit_sell 105 1 1%nat ctx_c6)) 105 1 1%nat 1%nat Hf) as [_ S].
  split; [exact Hb|]. split; [exact (proj1 (proj2 (B Hb)))|].
  split; [exact Hs|]. exact (proj1 (proj2 (proj2 (S Hs)))).
Defined.

(** C3: [limit_buy] and [limit_sell] quantize the price argument with
    [round_amount] (the amount step) in mode [Down] before any check: each
    call behaves as the call on the already quantized price, and a resting
    order stores [round_amount price Down] as its price. *)
Theorem limit_price_quantized_with_amount_step
  (self : StrategyContext) (price amount : Q) (order_id : Uuid) :
  let p := round_amount (precision self) price Down in
  limit_buy price amount order_id self = limit_buy p amount order_id self /\
  limit_sell price amount order_id self = limit_sell p amount order_id self /\
  (forall r self1, limit_buy price amount order_id self = (Ok (Some r), self1) ->
     exists a fee, orders self1 = orders self ++ [mkOrder order_id OLimitBuy p a fee]) /\
  (forall r self1, limit_sell price amount order_id self = (Ok (Some r), self1) ->
     exists a fee, orders self1 = orders self ++ [mkOrder order_id OLimitSell p a fee]).
Proof.
  intros p. split; [|split; [|split]].
  - unfold limit_buy. cbv beta iota zeta delta [bind get].
    unfold p. rewrite round_amount_idempotent. reflexivity.
  - unfold limit_sell. cbv beta iota zeta delta [bind get].
    unfold p. rewrite round_amount_idempotent. reflexivity.
  - intros r self1 H. destruct (limit_buy_some _ _ _ _ _ _ H) as [_ ->].
    do 2 eexists. reflexivity.
  - intros r self1 H. destruct (limit_sell_some _ _ _ _ _ _ H) as [_ ->].
    do 2 eexists. reflexivity.
Qed.

(** Price step [0.01], amount step [1]: a limit buy at [95.37] rests at [95]. *)
Definition ctx_c3 : StrategyContext :=
  mkCtx [candle0] 1000 0 [] [] fees0 (mkMarketPrecision (1#100) 1).

Lemma limit_price_quantized_with_amount_step_witness :
  limit_buy (9537#100) 1 4%nat ctx_c3 = (Ok (Some 4%nat), snd (limit_buy (9537#100) 1 4%nat ctx_c3)) /\
  exists a fee, orders (snd (limit_buy (9537#100) 1 4%nat ctx_c3))
                = [mkOrder 4%nat OLimitBuy 95 a fee].
Proof.
  assert (H : limit_buy (9537#100) 1 4%nat ctx_c3
              = (Ok (Some 4%nat), snd (limit_buy (9537#100) 1 4%nat ctx_c3)))
    by (vm_compute; reflexivity).
  split; [exact H|].
  destruct (proj1 (proj2 (proj2 (limit_price_quantized_with_amount_step ctx_c3 (9537#100) 1 4%nat)))
              _ _ H) as [a [fee E]].
  exists a, fee. rewrite E. reflexivity.
Defined.

(** ** [before]: lemmas on its loops *)

Definition order_trade (c : Candle) (o : Order) : Trade :=
  mkTrade (c_timestamp c)
    (match order_type o with OLimitBuy => LimitBuy | OLimitSell => LimitSell end)
    (o_price o) (o_amount o) (o_fee o) None.

Definition fill_order (c : Candle) (o : Order) (s : StrategyContext) : StrategyContext :=
  match order_type o with
  | OLimitBuy => set_trades (fun ts => ts ++ [order_trade c o])
                   (set_position (fun q => q + o_amount o) s)
  | OLimitSell => set_trades (fun ts => ts ++ [order_trade c o])
                    (set_balance (fun b => b + o_price o * o_amount o) s)
  end.

Definition before_body (c : Candle) (o : Order) : CtxM unit :=
  (match order_type o with
   | OLimitBuy => execute_limit_buy c (o_price o) (o_amount o) (o_fee o)
   | OLimitSell => execute_limit_sell c (o_price o) (o_amount o) (o_fee o)
   end) ;;;
  modify (set_orders (filter (fun o' => negb (Nat.eqb (id o') (id o))))).

Definition fill_and_retain (c : Candle) (s : StrategyContext) (o : Order) : StrategyContext :=
  set_orders (filter (fun o' => negb (Nat.eqb (id o') (id o)))) (fill_order c o s).

Lemma before_body_eq (c : Candle) (o : Order) (s : StrategyContext) :
  before_body c o s = (Ok tt, fill_and_retain c s o).
Proof.
  unfold before_body, fill_and_retain, fill_order, order_trade.
  destruct (order_type o); reflexivity.
Qed.

Lemma for_each_ext {S A} (L : list A) (b1 b2 : A -> M S unit) (s : S) :
  (forall x s', b1 x s' = b2 x s') -> for_each L b1 s = for_each L b2 s.
Proof.
  intros Hb. revert s. induction L as [|x L IH]; intros s; [reflexivity|].
  simpl. unfold bind. rewrite Hb. destruct (b2 x s) as [[] s1]; [apply IH | reflexivity].
Qed.

Lemma for_each_before_body (c : Candle) (L : list Order) (s : StrategyContext) :
  for_each L (before_body c) s = (Ok tt, fold_left (fill_and_retain c) L s).
Proof.
  revert s. induction L as [|o L IH]; intros s; [reflexivity|].
  simpl. unfold bind at 1. rewrite before_body_eq. apply IH.
Qed.

Lemma flat_map_singleton_filter {A} (f : A -> bool) (l : list A) :
  flat_map (fun x => if f x then [x] else []) l = filter f l.
Proof. induction l as [|x l IH]; simpl; [reflexivity|]. destruct (f x); simpl; congruence. Qed.

Definition mem_id (i : Uuid) (ids : list Uuid) : bool := existsb (Nat.eqb i) ids.

Definition qsum (l : list Q) : Q := fold_right Qplus 0 l.

Definition buy_amount (o : Order) : Q :=
  match order_type o with OLimitBuy => o_amount o | OLimitSell => 0 end.
Definition sell_proceeds (o : Order) : Q :=
  match order_type o with OLimitBuy => 0 | OLimitSell => o_price o * o_amount o end.

Lemma filter_filter_and {A} (f g : A -> bool) (l : list A) :
  filter f (filter g l) = filter (fun x => g x && f x) l.
Proof.
  induction l as [|x l IH]; simpl; [reflexivity|].
  destruct (g x); simpl; [destruct (f x); simpl; congruence | exact IH].
Qed.

Lemma fold_fill_and_retain (c : Candle) (L : list Order) (s : StrategyContext) :
  let s' := fold_left (fill_and_retain c) L s in
  candles s' = candles s /\ fees s' = fees s /\ precision s' = precision s /\
  trades s' = trades s ++ map (order_trade c) L /\
  orders s' = filter (fun o => negb (mem_id (id o) (map id L))) (orders s) /\
  position s' == position s + qsum (map buy_amount L) /\
  balance s' == balance s + qsum (map sell_proceeds L).
Proof.
  revert s. induction L as [|o L IH]; intros s; simpl.
  - repeat split; try reflexivity; try ring.
    + now rewrite app_nil_r.
    + induction (orders s) as [|x xs IHx]; simpl; [reflexivity|]. now rewrite <- IHx.
  - destruct (IH (fill_and_retain c s o)) as (Ec & Ef & Ep & Et & Eo & Eq & Eb).
    unfold fill_and_retain, fill_order in *.
    repeat split.
    + rewrite Ec. destruct (order_type o); reflexivity.
    + rewrite Ef. destruct (order_type o); reflexivity.
    + rewrite Ep. destruct (order_type o); reflexivity.
    + rewrite Et. destruct (order_type o); simpl; rewrite <- app_assoc; reflexivity.
    + rewrite Eo. destruct (order_type o); simpl;
        rewrite filter_filter_and; apply filter_ext; intros x;
        destruct (Nat.eqb (id x) (id o)); reflexivity.
    + rewrite Eq. unfold buy_amount at 2. destruct (order_type o); simpl; ring.
    + rewrite Eb. unfold sell_proceeds at 2. destruct (order_type o); simpl; ring.
Qed.

Lemma mem_id_in (i : Uuid) (ids : list Uuid) : mem_id i ids = true <-> In i ids.
Proof.
  unfold mem_id. rewrite existsb_exists. split.
  - intros [x [Hx E]]. apply Nat.eqb_eq in E. subst. exact Hx.
  - intros H. exists i. split; [exact H | apply Nat.eqb_refl].
Qed.

Lemma in_map_id_filter (f : Order -> bool) (i : Uuid) (os : list Order) :
  In i (map id (filter f os)) -> In i (map id os).
Proof.
  rewrite !in_map_iff. intros [x [E Hx]]. apply filter_In in Hx. exists x. tauto.
Qed.

(** With distinct ids, the [retain] calls remove exactly the filled orders. *)
Lemma retain_filled (f : Order -> bool) (os : list Order) :
  NoDup (map id os) ->
  filter (fun o => negb (mem_id (id o) (map id (filter f os)))) os
  = filter (fun o => negb (f o)) os.
Proof.
  induction os as [|x os IH]; intros Hnd; simpl; [reflexivity|].
  inversion Hnd as [|? ? Hx Hnd']; subst.
  destruct (f x) eqn:Fx; simpl.
  - rewrite Nat.eqb_refl. simpl. rewrite <- IH by exact Hnd'.
    apply filter_ext_in. intros o Ho.
    destruct (Nat.eqb (id o) (id x)) eqn:E; simpl; [|reflexivity].
    apply Nat.eqb_eq in E. exfalso. apply Hx. rewrite <- E. apply in_map, Ho.
  - destruct (mem_id (id x) (map id (filter f os))) eqn:M.
    + apply mem_id_in, in_map_id_filter in M. contradiction.
    + simpl. rewrite IH by exact Hnd'. reflexivity.
Qed.

(** C5: for the current candle, [before] fills every resting [LimitBuy]
    with [price >= low] and every resting [LimitSell] with [price <= high]
    at its stored price: the position grows by the filled buys' amounts
    (the balance is not debited for them), the balance grows by exactly
    [price * amount] for each filled sell, each filled order leaves the
    resting set and adds a journal entry of the matching limit type with
    the order's price, amount and fee, and the unfilled orders stay (order
    ids being distinct, as [Uuid::new_v4] makes them). *)
Theorem before_fills_resting_orders (self : StrategyContext) (c : Candle) :
  candle self = Ok c ->
  NoDup (map id (orders self)) ->
  let filled := filter (fills c) (orders self) in
  exists self',
    before self = (Ok tt, self') /\
    candles self' = candles self /\
    orders self' = filter (fun o => negb (fills c o)) (orders self) /\
    trades self' = trades self ++ map (order_trade c) filled /\
    position self' == position self + qsum (map buy_amount filled) /\
    balance self' == balance self + qsum (map sell_proceeds filled).
Proof.
  intros Hc Hnd filled.
  exists (fold_left (fill_and_retain c) filled self).
  destruct (fold_fill_and_retain c filled self) as (Ec & _ & _ & Et & Eo & Eq & Eb).
  split; [|repeat split; try assumption].
  - unfold before. cbv beta iota zeta delta [bind get lift ret]. rewrite Hc.
    rewrite flat_map_singleton_filter. fold filled.
    match goal with
    | |- context [for_each ?L ?b ?s] =>
        rewrite (for_each_ext L b (before_body c) s) by (intros; reflexivity)
    end.
    rewrite for_each_before_body. reflexivity.
  - rewrite Eo. apply retain_filled, Hnd.
Qed.

Definition ctx_c5 : StrategyContext :=
  mkCtx [mkCandle 2000 96 97 94 95 1] 500 1
        [] [mkOrder 1%nat OLimitBuy 95 1 0; mkOrder 2%nat OLimitBuy 90 1 0;
            mkOrder 3%nat OLimitSell 96 1 0; mkOrder 4%nat OLimitSell 99 1 0] fees0 prec0.

Lemma before_fills_resting_orders_witness :
  exists self', before ctx_c5 = (Ok tt, self') /\
    orders self' = [mkOrder 2%nat OLimitBuy 90 1 0; mkOrder 4%nat OLimitSell 99 1 0] /\
    position self' == 2 /\ balance self' == 596.
Proof.
  destruct (before_fills_resting_orders ctx_c5 (mkCandle 2000 96 97 94 95 1)
              eq_refl ltac:(vm_compute; repeat constructor; simpl; intuition discriminate))
    as (s' & E & _ & Eo & _ & Ep & Eb).
  exists s'. split; [exact E|]. split; [rewrite Eo; reflexivity|].
  split; [rewrite Ep; reflexivity | rewrite Eb; reflexivity].
Defined.

(** ** Successful runs of the operations *)

Ltac monad_in H :=
  cbv beta iota zeta delta [bind get ret throw modify lift] in H.

Lemma market_buy_ok (s s' : StrategyContext) (amount : Q) (u : unit) :
  market_buy amount s = (Ok u, s') ->
  exists c, candle s = Ok c /\
  let a := round_amount (precision s) amount Down in
  let cost := c_close c * a in
  let fee := round_amount (precision s) (cost * taker (fees s)) Up in
  0 < a /\ cost + fee <= balance s /\
  s' = set_trades (fun ts => ts ++ [mkTrade (c_timestamp c) MarketBuy (c_close c) a fee None])
         (set_position (fun q => q + a) (set_balance (fun b => b - (cost + fee)) s)).
Proof.
  intros H. unfold market_buy in H. monad_in H.
  destruct (Qle_bool _ 0) eqn:E1; [discriminate|].
  destruct (candle s) as [c|e]; [|discriminate].
  destruct (qgt _ _) eqn:E2; [discriminate|].
  inversion H; subst. exists c. split; [reflexivity|].
  split; [apply Qle_bool_false, E1|]. split; [apply qgt_false, E2 | reflexivity].
Qed.

Lemma market_sell_ok (s s' : StrategyContext) (amount : Q) (u : unit) :
  market_sell amount s = (Ok u, s') ->
  exists c, candle s = Ok c /\
  let a := round_amount (precision s) amount Down in
  let proceeds := c_close c * a in
  let fee := round_amount (precision s) (proceeds * taker (fees s)) Up in
  0 < a /\ a <= position s /\ 0 <= proceeds - fee /\
  s' = set_trades (fun ts => ts ++ [mkTrade (c_timestamp c) MarketSell (c_close c) a fee None])
         (set_balance (fun b => b + (proceeds - fee)) (set_position (fun q => q - a) s)).
Proof.
  intros H. unfold market_sell in H. monad_in H.
  destruct (Qle_bool _ 0) eqn:E1; [discriminate|].
  destruct (qgt _ (position s)) eqn:E2; [discriminate|].
  destruct (candle s) as [c|e]; [|discriminate].
  destruct (qlt _ 0) eqn:E3; [discriminate|].
  inversion H; subst. exists c. split; [reflexivity|].
  split; [apply Qle_bool_false, E1|]. split; [apply qgt_false, E2|].
  split; [apply qlt_false, E3 | reflexivity].
Qed.

Lemma limit_buy_none (s s' : StrategyContext) (price amount : Q) (order_id : Uuid) :
  limit_buy price amount order_id s = (Ok None, s') ->
  market_buy (round_amount (precision s) amount Down) s = (Ok tt, s').
Proof.
  intros H. unfold limit_buy in H. monad_in H.
  destruct (Qle_bool _ 0); [discriminate|].
  destruct (candle s) as [c|e]; [|discriminate].
  destruct (Qle_bool (c_close c) _).
  - destruct (market_buy _ s) as [[[]|e] s1]; inversion H; reflexivity.
  - destruct (qgt _ _); discriminate.
Qed.

Lemma limit_sell_none (s s' : StrategyContext) (price amount : Q) (order_id : Uuid) :
  limit_sell price amount order_id s = (Ok None, s') ->
  market_sell (round_amount (precision s) amount Down) s = (Ok tt, s').
Proof.
  intros H. unfold limit_sell in H. monad_in H.
  destruct (Qle_bool _ 0); [discriminate|].
  destruct (qgt _ (position s)); [discriminate|].
  destruct (candle s) as [c|e]; [|discriminate].
  destruct (Qle_bool _ (c_close c)).
  - destruct (market_sell _ s) as [[[]|e] s1]; inversion H; reflexivity.
  - destruct (qgt _ _); discriminate.
Qed.

(** The conditions under which [limit_buy] and [limit_sell] rest an order. *)
Lemma limit_buy_some_cond (self self1 : StrategyContext) (price amount : Q) (order_id r : Uuid) :
  limit_buy price amount order_id self = (Ok (Some r), self1) ->
  let p := round_amount (precision self) price Down in
  let a := round_amount (precision self) amount Down in
  let fee := round_amount (precision self) (a * p * maker (fees self)) Up in
  0 < a /\ a * p + fee <= balance self.
Proof.
  intros H p a fee. unfold limit_buy in H. monad_in H. fold p a fee in H.
  destruct (Qle_bool a 0) eqn:E1; [discriminate|].
  destruct (candle self) as [c|e]; [|discriminate].
  destruct (Qle_bool (c_close c) p).
  - destruct (market_buy a self) as [[[]|e] s1]; discriminate.
  - destruct (qgt (a * p + fee) (balance self)) eqn:E2; [discriminate|].
    split; [apply Qle_bool_false, E1 | apply qgt_false, E2].
Qed.

Lemma limit_sell_some_cond (self self1 : StrategyContext) (price amount : Q) (order_id r : Uuid) :
  limit_sell price amount order_id self = (Ok (Some r), self1) ->
  let p := round_amount (precision self) price Down in
  let a := round_amount (precision self) amount Down in
  let fee := round_amount (precision self) (p * a * maker (fees self)) Up in
  0 < a /\ a <= position self /\ fee <= balance self.
Proof.
  intros H p a fee. unfold limit_sell in H. monad_in H. fold p a fee in H.
  destruct (Qle_bool a 0) eqn:E1; [discriminate|].
  destruct (qgt a (position self)) eqn:E2; [discriminate|].
  destruct (candle self) as [c|e]; [|discriminate].
  destruct (Qle_bool p (c_close c)).
  - destruct (market_sell a self) as [[[]|e] s1]; discriminate.
  - destruct (qgt fee (balance self)) eqn:E3; [discriminate|].
    split; [apply Qle_bool_false, E1|]. split; [apply qgt_false, E2 | apply qgt_false, E3].
Qed.

Lemma before_eq (self : StrategyContext) :
  before self =
  match candle self with
  | Ok c => (Ok tt, fold_left (fill_and_retain c) (filter (fills c) (orders self)) self)
  | Err e => (Err e, self)
  end.
Proof.
  unfold before. cbv beta iota zeta delta [bind get lift ret].
  destruct (candle self) as [c|e]; [|reflexivity].
  rewrite flat_map_singleton_filter.
  match goal with
  | |- context [for_each ?L ?b ?s] =>
      rewrite (for_each_ext L b (before_body c) s) by (intros; reflexivity)
  end.
  rewrite for_each_before_body. reflexivity.
Qed.

Lemma cancel_order_cases (i : Uuid) (s : StrategyContext) :
  fst (cancel_order i s) = Ok tt /\
  (snd (cancel_order i s) = s \/
   exists pos o, nth_error (orders s) pos = Some o /\
     snd (cancel_order i s) =
     set_orders (remove_at pos)
       (match order_type o with
        | OLimitBuy => set_balance (fun b => b + (o_price o * o_amount o + o_fee o)) s
        | OLimitSell =>
            set_balance (fun b => b + o_fee o) (set_position (fun q => q + o_amount o) s)
        end)).
Proof.
  unfold cancel_order. cbv beta iota zeta delta [bind get ret modify].
  destruct (position_of _ (orders s)) as [pos|]; [|split; [reflexivity | left; reflexivity]].
  destruct (nth_error (orders s) pos) as [o|] eqn:En; [|split; [reflexivity | left; reflexivity]].
  split; [destruct (order_type o); reflexivity|].
  right. exists pos, o. split; [exact En|]. destruct (order_type o); reflexivity.
Qed.

(** ** The invariant of C1 *)

Definition order_ok (o : Order) : Prop :=
  0 <= o_amount o /\
  match order_type o with
  | OLimitBuy => 0 <= o_price o * o_amount o + o_fee o
  | OLimitSell => 0 <= o_fee o /\ 0 <= o_price o * o_amount o
  end.

Definition Inv (s : StrategyContext) : Prop :=
  0 <= balance s /\ 0 <= position s /\ Forall order_ok (orders s).

(** The limit prices a strategy passes are non-negative. *)
Definition op_ok (op : Op) : Prop :=
  match op with
  | OpLimitBuy p _ _ | OpLimitSell p _ _ => 0 <= p
  | _ => True
  end.

Lemma Forall_remove_at {A} (P : A -> Prop) (n : nat) (l : list A) :
  Forall P l -> Forall P (remove_at n l).
Proof.
  revert n. induction l as [|x l IH]; intros n H; [destruct n; constructor|].
  inversion H; subst. destruct n; simpl; [assumption | constructor; auto].
Qed.

Lemma Forall_filter' {A} (P : A -> Prop) (f : A -> bool) (l : list A) :
  Forall P l -> Forall P (filter f l).
Proof.
  rewrite !Forall_forall. intros H x Hx. apply filter_In in Hx. apply H, Hx.
Qed.

Lemma qsum_nonneg (l : list Q) : Forall (Qle 0) l -> 0 <= qsum l.
Proof.
  induction l as [|x l IH]; intros H; simpl; [apply Qle_refl|].
  inversion H; subst. specialize (IH ltac:(assumption)). lra.
Qed.

Lemma cancel_order_inv (i : Uuid) (s : StrategyContext) :
  Inv s -> Inv (snd (cancel_order i s)) /\ fees (snd (cancel_order i s)) = fees s.
Proof.
  intros (Hb & Hp & Ho).
  destruct (cancel_order_cases i s) as [_ [-> | (pos & o & En & ->)]];
    [split; [split; [|split]; assumption | reflexivity]|].
  assert (Hok : order_ok o) by (eapply Forall_forall; [exact Ho | eapply nth_error_In; exact En]).
  destruct Hok as [Ha Hty].
  destruct (order_type o) eqn:Et; try rewrite Et in Hty; unfold Inv; simpl;
    (split; [|reflexivity]).
  - split; [lra|]. split; [exact Hp|]. apply Forall_remove_at, Ho.
  - destruct Hty. split; [lra|]. split; [lra|]. apply Forall_remove_at, Ho.
Qed.

Lemma end_inv (ids : list Uuid) (s s' : StrategyContext) (u : unit) :
  Inv s -> for_each ids cancel_order s = (Ok u, s') -> Inv s' /\ fees s' = fees s.
Proof.
  revert s. induction ids as [|i ids IH]; intros s Hs H.
  - inversion H; subst. split; [exact Hs | reflexivity].
  - simpl in H. unfold bind in H.
    destruct (cancel_order_cases i s) as [Ef _].
    destruct (cancel_order i s) as [r s1] eqn:Ec. simpl in Ef. subst r.
    destruct (cancel_order_inv i s Hs) as [Hs1 Ef1]. rewrite Ec in Hs1, Ef1. simpl in Hs1, Ef1.
    destruct (IH s1 Hs1 H) as [Hs' Ef']. split; [exact Hs' | congruence].
Qed.

Lemma market_buy_inv (amount : Q) (s s' : StrategyContext) (u : unit) :
  Inv s -> market_buy amount s = (Ok u, s') -> Inv s' /\ fees s' = fees s.
Proof.
  intros (Hb & Hp & Ho) H.
  destruct (market_buy_ok _ _ _ _ H) as (c & _ & Ha & Ht & ->).
  unfold Inv; simpl. split; [|reflexivity]. split; [lra|]. split; [lra | exact Ho].
Qed.

Lemma market_sell_inv (amount : Q) (s s' : StrategyContext) (u : unit) :
  Inv s -> market_sell amount s = (Ok u, s') -> Inv s' /\ fees s' = fees s.
Proof.
  intros (Hb & Hp & Ho) H.
  destruct (market_sell_ok _ _ _ _ H) as (c & _ & Ha & Hle & Hr & ->).
  unfold Inv; simpl. split; [|reflexivity]. split; [lra|]. split; [lra | exact Ho].
Qed.

Lemma run_op_inv (op : Op) (s s' : StrategyContext) (u : unit) :
  Inv s -> 0 <= maker (fees s) -> op_ok op ->
  run_op op s = (Ok u, s') -> Inv s' /\ fees s' = fees s.
Proof.
  intros Hs Hm Hop H. destruct op as [c|a|a|p a i|p a i|i| | | ]; simpl in Hop, H.
  - inversion H; subst. split; [exact Hs | reflexivity].
  - exact (market_buy_inv _ _ _ _ Hs H).
  - exact (market_sell_inv _ _ _ _ Hs H).
  - unfold bind, ret in H.
    destruct (limit_buy p a i s) as [[[r|]|e] s1] eqn:El; inversion H; subst.
    + pose proof (limit_buy_some_cond _ _ _ _ _ _ El) as (Ha & Ht).
      destruct (limit_buy_some _ _ _ _ _ _ El) as [_ ->].
      destruct Hs as (Hb & Hp & Ho).
      set (pp := round_amount (precision s) p Down) in *.
      set (aa := round_amount (precision s) a Down) in *.
      set (fee := round_amount (precision s) (aa * pp * maker (fees s)) Up) in *.
      assert (Hpp : 0 <= pp) by (apply round_amount_nonneg, Hop).
      assert (Hap : 0 <= aa * pp) by (apply Qmult_le_0_compat; lra).
      assert (Hfee : 0 <= fee)
        by (apply round_amount_nonneg, Qmult_le_0_compat; assumption).
      unfold Inv; simpl. split; [|reflexivity]. split; [lra|]. split; [exact Hp|].
      apply Forall_app. split; [exact Ho|]. constructor; [|constructor].
      unfold order_ok; simpl. split; [lra|].
      setoid_replace (pp * aa) with (aa * pp) by ring. lra.
    + exact (market_buy_inv _ _ _ _ Hs (limit_buy_none _ _ _ _ _ El)).
  - unfold bind, ret in H.
    destruct (limit_sell p a i s) as [[[r|]|e] s1] eqn:El; inversion H; subst.
    + pose proof (limit_sell_some_cond _ _ _ _ _ _ El) as (Ha & Hle & Hf).
      destruct (limit_sell_some _ _ _ _ _ _ El) as [_ ->].
      destruct Hs as (Hb & Hp & Ho).
      set (pp := round_amount (precision s) p Down) in *.
      set (aa := round_amount (precision s) a Down) in *.
      set (fee := round_amount (precision s) (pp * aa * maker (fees s)) Up) in *.
      assert (Hpp : 0 <= pp) by (apply round_amount_nonneg, Hop).
      assert (Hpa : 0 <= pp * aa) by (apply Qmult_le_0_compat; lra).
      assert (Hfee : 0 <= fee)
        by (apply round_amount_nonneg, Qmult_le_0_compat; assumption).
      unfold Inv; simpl. split; [|reflexivity]. split; [lra|]. split; [lra|].
      apply Forall_app. split; [exact Ho|]. constructor; [|constructor].
      unfold order_ok; simpl. split; [lra|]. split; assumption.
    + exact (market_sell_inv _ _ _ _ Hs (limit_sell_none _ _ _ _ _ El)).
  - destruct (cancel_order_inv i s Hs) as [Hi Hf]. rewrite H in Hi, Hf. split; assumption.
  - rewrite before_eq in H. destruct (candle s) as [c|e]; [|discriminate].
    inversion H; subst.
    set (L := filter (fills c) (orders s)).
    destruct (fold_fill_and_retain c L s) as (_ & Ef & _ & _ & Eo & Eq & Eb).
    destruct Hs as (Hb & Hp & Ho).
    assert (HL : Forall order_ok L) by (apply Forall_filter', Ho).
    assert (Hq : 0 <= qsum (map buy_amount L)).
    { apply qsum_nonneg, Forall_map. eapply Forall_impl; [|exact HL].
      intros o [Ha _]. unfold buy_amount. destruct (order_type o); [exact Ha | apply Qle_refl]. }
    assert (Hbs : 0 <= qsum (map sell_proceeds L)).
    { apply qsum_nonneg, Forall_map. eapply Forall_impl; [|exact HL].
      intros o [_ Hty]. unfold sell_proceeds. destruct (order_type o); [apply Qle_refl | tauto]. }
    unfold Inv. split; [|exact Ef].
    rewrite Eq, Eb, Eo. split; [lra|]. split; [lra|]. apply Forall_filter', Ho.
  - inversion H; subst. split; [exact Hs | reflexivity].
  - unfold end_ in H. monad_in H.
    destruct (for_each (map id (orders s)) cancel_order s) as [[x|e] s1] eqn:Ee;
      inversion H; subst.
    exact (end_inv _ _ _ _ Hs Ee).
Qed.

Lemma run_ops_inv (ops : list Op) (s s' : StrategyContext) :
  Inv s -> 0 <= maker (fees s) -> Forall op_ok ops ->
  run_ops ops s = Some s' -> Inv s'.
Proof.
  revert s. induction ops as [|op ops IH]; intros s Hs Hm Hops H; simpl in H.
  - inversion H; subst. exact Hs.
  - inversion Hops; subst.
    destruct (run_op op s) as [[x|e] s1] eqn:Er; [|discriminate].
    destruct (run_op_inv op s s1 x Hs Hm ltac:(assumption) Er) as [Hs1 Hf].
    apply (IH s1); [exact Hs1 | rewrite Hf; exact Hm | assumption | exact H].
Qed.

(** ** C1 *)

Definition run_from (ops : list Op) (s0 : StrategyContext) : StrategyContext :=
  match run_ops ops s0 with Some s => s | None => s0 end.

(** A limit buy at a negative price credits the balance; once that credit is
    spent, cancelling the order debits it back below zero. *)
Definition fees_zero : TradingFees := mkTradingFees 0 0.
Definition prec_unit : MarketPrecision := mkMarketPrecision 1 1.
Definition ops_negative_price : list Op :=
  [OpPushCandle (mkCandle 1000 10 12 8 10 1); OpLimitBuy (-10) 1 1%nat;
   OpMarketBuy 1; OpCancel 1%nat].

(** C1, as stated, fails: from a fresh context with balance 0, the successful
    sequence [limit_buy(-10, 1)], [market_buy(1)], [cancel_order] ends with
    balance [-10]. *)
Lemma balance_nonneg_counterexample :
  ~ (forall (b : Q) (fs : TradingFees) (prec : MarketPrecision) (ops : list Op)
            (s0 s' : StrategyContext),
       0 <= b -> new b fs prec = Ok s0 -> run_ops ops s0 = Some s' ->
       0 <= balance s' /\ 0 <= position s').
Proof.
  intros H.
  set (s0 := mkCtx [] 0 0 [] [] fees_zero prec_unit).
  assert (Hr : run_ops ops_negative_price s0 = Some (run_from ops_negative_price s0))
    by (vm_compute; reflexivity).
  destruct (H 0 fees_zero prec_unit ops_negative_price s0 _ (Qle_refl 0) eq_refl Hr) as [Hb _].
  revert Hb. vm_compute. intros Hb. apply Hb. reflexivity.
Qed.

(** C1 (amended): starting from [StrategyContext::new] with a non-negative
    balance, a non-negative maker fee rate, and non-negative price arguments
    to [limit_buy]/[limit_sell], every sequence of successful operations
    ([market_buy], [market_sell], [limit_buy], [limit_sell], [cancel_order],
    [before], [after], [end], and the loop's candle pushes) ends with
    [balance >= 0] and [position >= 0]. *)
Theorem balance_position_nonneg
  (b : Q) (fs : TradingFees) (prec : MarketPrecision) (ops : list Op)
  (s0 s' : StrategyContext) :
  0 <= b -> 0 <= maker fs -> Forall op_ok ops ->
  new b fs prec = Ok s0 -> run_ops ops s0 = Some s' ->
  0 <= balance s' /\ 0 <= position s'.
Proof.
  intros Hb Hm Hops Hn Hr. inversion Hn; subst.
  assert (H0 : Inv (mkCtx [] b 0 [] [] fs prec))
    by (split; [exact Hb | split; [apply Qle_refl | constructor]]).
  destruct (run_ops_inv ops _ s' H0 Hm Hops Hr) as (Hb' & Hp' & _).
  split; assumption.
Qed.

Definition ops_witness : list Op :=
  [OpPushCandle candle0; OpLimitBuy 95 1 7%nat; OpMarketBuy 2; OpLimitSell 120 1 8%nat;
   OpPushCandle (mkCandle 2000 96 121 94 95 1); OpBefore; OpLimitBuy 50 1 9%nat; OpEnd].

Lemma balance_position_nonneg_witness :
  run_ops ops_witness (mkCtx [] 1000 0 [] [] fees0 prec0)
  = Some (run_from ops_witness (mkCtx [] 1000 0 [] [] fees0 prec0)) /\
  0 <= balance (run_from ops_witness (mkCtx [] 1000 0 [] [] fees0 prec0)) /\
  0 <= position (run_from ops_witness (mkCtx [] 1000 0 [] [] fees0 prec0)).
Proof.
  assert (Hr : run_ops ops_witness (mkCtx [] 1000 0 [] [] fees0 prec0)
               = Some (run_from ops_witness (mkCtx [] 1000 0 [] [] fees0 prec0)))
    by (vm_compute; reflexivity).
  split; [exact Hr|].
  apply (balance_position_nonneg 1000 fees0 prec0 ops_witness
           (mkCtx [] 1000 0 [] [] fees0 prec0)
           (run_from ops_witness (mkCtx [] 1000 0 [] [] fees0 prec0)));
    [decide_q | decide_q | | reflexivity | exact Hr].
  repeat constructor; simpl; decide_q.
Defined.

(** ** [tasks/backtest.rs]: [calculate_backtest_statistic]

    The loop state of the statistic computation ([max_drawdown_percent], an
    [f32], is left out). *)
Record StatAcc := mkAcc {
  s_balance : Q; s_position : Q; total_cost : Q;
  max_equity : Q; max_drawdown : Q;
  buy_trades : nat; sell_trades : nat; winning_trades : nat; losing_trades : nat;
  gross_profit : Q; gross_loss : Q; largest_win : Q; largest_loss : Q;
  trades_with_profit : list Trade
}.

Definition is_buy (t : Trade) : bool :=
  match trade_type t with MarketBuy | LimitBuy => true | _ => false end.

(** The body of both draining loops (the two copies in the source are the
    same code). *)
Definition process_trade (acc : StatAcc) (trade : Trade) : StatAcc :=
  if is_buy trade then
    let cost := t_price trade * t_amount trade + t_fee trade in
    mkAcc (s_balance acc - cost) (s_position acc + t_amount trade) (total_cost acc + cost)
      (max_equity acc) (max_drawdown acc)
      (S (buy_trades acc)) (sell_trades acc) (winning_trades acc) (losing_trades acc)
      (gross_profit acc) (gross_loss acc) (largest_win acc) (largest_loss acc)
      (trades_with_profit acc ++ [trade])
  else
    let proceeds := t_price trade * t_amount trade in
    let revenue := proceeds - t_fee trade in
    let average_cost := if is_zero (s_position acc) then 0
                        else total_cost acc / s_position acc in
    let profit := revenue - average_cost * t_amount trade in
    let position := s_position acc - t_amount trade in
    let balance := s_balance acc + revenue in
    let total_cost := if is_zero position then 0
                      else total_cost acc - average_cost * t_amount trade in
    let '(winning, gp, lw, losing, gl, ll) :=
      if qgt profit 0 then
        (S (winning_trades acc), gross_profit acc + profit,
         (if qgt profit (largest_win acc) then profit else largest_win acc),
         losing_trades acc, gross_loss acc, largest_loss acc)
      else if qlt profit 0 then
        (winning_trades acc, gross_profit acc, largest_win acc,
         S (losing_trades acc), gross_loss acc + profit,
         (if qlt profit (largest_loss acc) then profit else largest_loss acc))
      else
        (winning_trades acc, gross_profit acc, largest_win acc,
         losing_trades acc, gross_loss acc, largest_loss acc) in
    mkAcc balance position total_cost (max_equity acc) (max_drawdown acc)
      (buy_trades acc) (S (sell_trades acc)) winning losing gp gl lw ll
      (trades_with_profit acc ++
         [mkTrade (t_timestamp trade) (trade_type trade) (t_price trade)
                  (t_amount trade) (t_fee trade) (Some profit)]).

(** [while let Some(trade) = trades_iter.peek()]: drain the trades whose
    timestamp is not after the candle's. *)
Fixpoint drain (ts : Z) (acc : StatAcc) (rest : list Trade) : StatAcc * list Trade :=
  match rest with
  | [] => (acc, [])
  | trade :: rest' =>
      if (ts <? t_timestamp trade)%Z then (acc, rest)
      else drain ts (process_trade acc trade) rest'
  end.

Definition update_equity (candle : Candle) (acc : StatAcc) : StatAcc :=
  let high_value := s_position acc * c_high candle + s_balance acc in
  let max_eq := if qgt high_value (max_equity acc) then high_value else max_equity acc in
  let low_value := s_position acc * c_low candle + s_balance acc in
  let drawdown := max_eq - low_value in
  let max_dd := if qgt drawdown (max_drawdown acc) then drawdown else max_drawdown acc in
  mkAcc (s_balance acc) (s_position acc) (total_cost acc) max_eq max_dd
    (buy_trades acc) (sell_trades acc) (winning_trades acc) (losing_trades acc)
    (gross_profit acc) (gross_loss acc) (largest_win acc) (largest_loss acc)
    (trades_with_profit acc).

Fixpoint candle_loop (candles : list Candle) (acc : StatAcc) (rest : list Trade)
  : StatAcc * list Trade :=
  match candles with
  | [] => (acc, rest)
  | c :: cs =>
      let '(acc', rest') := drain (c_timestamp c) acc rest in
      candle_loop cs (update_equity c acc') rest'
  end.

Definition init_acc (initial_capital : Q) : StatAcc :=
  mkAcc initial_capital 0 0 initial_capital 0 0 0 0 0 0 0 0 0 [].

(** The two loops of [calculate_backtest_statistic]: over the candles, then
    over the trades left after the last candle. *)
Definition statistic_loops (initial_capital : Q) (candles : list Candle) (trades : list Trade)
  : StatAcc :=
  let '(acc, rest) := candle_loop candles (init_acc initial_capital) trades in
  fold_left process_trade rest acc.

(** C2: for every drained sell trade, [sell_trades] is incremented;
    [revenue = price*amount - fee]; the average cost is [0] when the running
    position is zero and [total_cost/position] otherwise; the profit
    attributed to the sell is [revenue - avg_cost*amount]; the position
    decreases by [amount], the balance increases by [revenue], and
    [total_cost] becomes exactly [0] when the new position is zero and
    decreases by [avg_cost*amount] otherwise. *)
Theorem process_sell_trade (acc : StatAcc) (trade : Trade) :
  is_buy trade = false ->
  let acc' := process_trade acc trade in
  let revenue := t_price trade * t_amount trade - t_fee trade in
  let average_cost := if is_zero (s_position acc) then 0
                      else total_cost acc / s_position acc in
  let profit := revenue - average_cost * t_amount trade in
  sell_trades acc' = S (sell_trades acc) /\
  trades_with_profit acc' =
    trades_with_profit acc ++
      [mkTrade (t_timestamp trade) (trade_type trade) (t_price trade)
               (t_amount trade) (t_fee trade) (Some profit)] /\
  s_position acc' = s_position acc - t_amount trade /\
  s_balance acc' = s_balance acc + revenue /\
  total_cost acc' = (if is_zero (s_position acc') then 0
                     else total_cost acc - average_cost * t_amount trade).
Proof.
  intros Hs. unfold process_trade. rewrite Hs. simpl.
  destruct (qgt _ 0); [|destruct (qlt _ 0)]; simpl; repeat split.
Qed.

Lemma process_sell_trade_witness :
  s_position (process_trade
                (process_trade (init_acc 1000) (mkTrade 1 MarketBuy 100 2 1 None))
                (mkTrade 2 MarketSell 110 2 1 None)) = 0 /\
  total_cost (process_trade
                (process_trade (init_acc 1000) (mkTrade 1 MarketBuy 100 2 1 None))
                (mkTrade 2 MarketSell 110 2 1 None)) = 0.
Proof.
  pose proof (process_sell_trade
                (process_trade (init_acc 1000) (mkTrade 1 MarketBuy 100 2 1 None))
                (mkTrade 2 MarketSell 110 2 1 None) eq_refl) as (_ & _ & Hp & _ & Ht).
  rewrite Hp. split; [reflexivity|]. rewrite Ht. vm_compute. reflexivity.
Defined.

(** ** [calculate_sharpe_ratio]

    [f64] and [f32] arithmetic is kept abstract: the statements below hold
    for any semantics of the floating-point operations. *)
Section Sharpe.

Variable f64 f32 : Type.
Variables (f64_zero f64_one sum_start : f64).
Variables (fadd fsub fmul fdiv : f64 -> f64 -> f64).
Variable fsqrt : f64 -> f64.
Variable f64_eqb : f64 -> f64 -> bool.
Variable usize_to_f64 : nat -> f64.
(** [BigDecimal::to_f64] *)
Variable decimal_to_f64 : Q -> option f64.
(** [x as f32] *)
Variable f64_to_f32 : f64 -> f32.
Variables (f32_zero f32_infinity : f32).

Definition unwrap_or {A} (o : option A) (d : A) : A :=
  match o with Some x => x | None => d end.

Definition has_nonzero_profit (t : Trade) : bool :=
  match profit t with Some p => negb (is_zero p) | None => false end.

(** [iter().sum::<f64>()] *)
Definition fsum (l : list f64) : f64 := fold_left fadd l sum_start.

Fixpoint filter_map {A B} (f : A -> option B) (l : list A) : list B :=
  match l with
  | [] => []
  | x :: l' => match f x with Some y => y :: filter_map f l' | None => filter_map f l' end
  end.

Definition calculate_sharpe_ratio (trades : list Trade) (initial_capital : Q) : f32 :=
  match trades with
  | [] => f32_zero
  | _ =>
    let sell_trades := filter has_nonzero_profit trades in
    match sell_trades with
    | [] => f32_zero
    | [_] => f32_infinity
    | _ =>
      let initial_capital_f64 := unwrap_or (decimal_to_f64 initial_capital) f64_one in
      let returns :=
        map (fun p => fdiv (unwrap_or (decimal_to_f64 p) f64_zero) initial_capital_f64)
            (filter_map profit sell_trades) in
      let mean_return := fdiv (fsum returns) (usize_to_f64 (List.length returns)) in
      let variance :=
        fdiv (fsum (map (fun r => let diff := fsub r mean_return in fmul diff diff) returns))
             (usize_to_f64 (List.length returns)) in
      let std_dev := fsqrt variance in
      if f64_eqb std_dev f64_zero then f32_infinity
      else f64_to_f32 (fdiv mean_return std_dev)
    end
  end.

(** The per-trade returns [profit_i / initial_capital], their mean and their
    population standard deviation. *)
Definition trade_returns (sells : list Trade) (initial_capital : Q) : list f64 :=
  map (fun t => fdiv (unwrap_or (decimal_to_f64 (unwrap_or (profit t) 0)) f64_zero)
                     (unwrap_or (decimal_to_f64 initial_capital) f64_one)) sells.

Definition mean (rs : list f64) : f64 := fdiv (fsum rs) (usize_to_f64 (List.length rs)).

Definition population_std_dev (rs : list f64) : f64 :=
  fsqrt (fdiv (fsum (map (fun r => fmul (fsub r (mean rs)) (fsub r (mean rs))) rs))
              (usize_to_f64 (List.length rs))).

Lemma filter_map_profit_nonzero (l : list Trade) :
  forall (d : Q -> f64), map (fun p => d p) (filter_map profit (filter has_nonzero_profit l))
            = map (fun t => d (unwrap_or (profit t) 0)) (filter has_nonzero_profit l).
Proof.
  intros d. induction l as [|t l IH]; simpl; [reflexivity|].
  destruct (has_nonzero_profit t) eqn:Eh; [|exact IH].
  unfold has_nonzero_profit in Eh. simpl.
  destruct (profit t) as [p|]; [|discriminate]. simpl. f_equal. exact IH.
Qed.

(** C7: over the trades with a non-zero realized profit (in the statistic's
    journal only sells carry a profit): none gives [0], exactly one gives
    [+infinity], a zero population standard deviation of the returns
    [profit_i/initial_capital] gives [+infinity], and otherwise the result
    is [mean/std_dev] of those returns. *)
Theorem sharpe_ratio_cases (trades : list Trade) (initial_capital : Q) :
  let sells := filter has_nonzero_profit trades in
  let rs := trade_returns sells initial_capital in
  calculate_sharpe_ratio trades initial_capital =
  match sells with
  | [] => f32_zero
  | [_] => f32_infinity
  | _ => if f64_eqb (population_std_dev rs) f64_zero then f32_infinity
         else f64_to_f32 (fdiv (mean rs) (population_std_dev rs))
  end.
Proof.
  intros sells rs. unfold calculate_sharpe_ratio.
  destruct trades as [|t ts]; [reflexivity|].
  fold sells. unfold rs, trade_returns, population_std_dev, mean.
  unfold sells. rewrite filter_map_profit_nonzero.
  destruct (filter has_nonzero_profit (t :: ts)) as [|x [|y l]]; reflexivity.
Qed.

End Sharpe.

(** ** [tasks/backtest.rs]: the task

    [f32] fields ([progress]) are kept as rationals; [Utc::now()] readings
    are arguments; a broadcast appends a snapshot of the task to the list of
    sent events. *)

Definition with_scale_round2_half_up (x : Q) : Q :=
  inject_Z (with_scale_round0 (x * 100) HalfUp) / 100.

(** The decimal and count fields of [BacktestStatistic] (the [f32] ratios
    are left out). *)
Record BacktestStatistic := mkStatistic {
  st_trades : list Trade;
  st_initial_capital : Q;
  st_total_cost : Q;
  st_net_profit : Q;
  st_max_equity : Q;
  st_max_drawdown : Q;
  st_gross_profit : Q;
  st_gross_loss : Q;
  st_total_trades : nat;
  st_buy_trades : nat;
  st_sell_trades : nat;
  st_winning_trades : nat;
  st_losing_trades : nat;
  st_largest_win : Q;
  st_largest_loss : Q
}.

Definition calculate_backtest_statistic (initial_capital : Q) (candles : list Candle)
  (trades : list Trade) : BacktestStatistic :=
  let acc := statistic_loops initial_capital candles trades in
  mkStatistic (trades_with_profit acc) initial_capital (total_cost acc)
    (with_scale_round2_half_up (gross_profit acc + gross_loss acc))
    (max_equity acc) (max_drawdown acc) (gross_profit acc) (gross_loss acc)
    (buy_trades acc + sell_trades acc) (buy_trades acc) (sell_trades acc)
    (winning_trades acc) (losing_trades acc) (largest_win acc) (largest_loss acc).

Inductive BacktestStatus := Pending | Running | Completed | Failed.

Record BacktestTask := mkTask {
  status : BacktestStatus;
  progress : Q;
  statistic : option BacktestStatistic;
  error_message : option string;
  started_at : option Z;
  completed_at : option Z;
  updated_at : Z
}.

Record TaskState := mkTaskState { task : BacktestTask; sent : list BacktestTask }.

Definition TaskM := M TaskState.

Definition update_task (f : BacktestTask -> BacktestTask) : TaskM unit :=
  modify (fun st => mkTaskState (f (task st)) (sent st)).

Definition broadcast : TaskM unit :=
  modify (fun st => mkTaskState (task st) (sent st ++ [task st])).

Definition BACKTEST_BROADCAST_INTERVAL : nat := 100.

(** Everything [execute_backtest] reads from outside: the candle store, the
    exchange's fees and precision, the strategy's [tick] and the clock. *)
Record Environment := mkEnv {
  get_candles : AppResult (list Candle);
  ccxt_fees : AppResult TradingFees;
  ccxt_precision : AppResult MarketPrecision;
  tick : CtxM unit;
  now : Z
}.

Definition set_progress (p : Q) (t0 : Z) (t : BacktestTask) : BacktestTask :=
  mkTask (status t) p (statistic t) (error_message t) (started_at t) (completed_at t) t0.

(** Run a context step inside the task, failing the task on its error. *)
Definition ctx_step (m : CtxM unit) (ctx : StrategyContext) : TaskM StrategyContext :=
  match m ctx with
  | (Ok _, ctx') => ret ctx'
  | (Err e, _) => throw e
  end.

Fixpoint candle_steps (env : Environment) (total : nat) (index : nat)
  (cs : list Candle) (ctx : StrategyContext) : TaskM StrategyContext :=
  match cs with
  | [] => ret ctx
  | candle :: cs' =>
      ctx <- ctx_step (modify (set_candles (fun l => l ++ [candle]))) ctx ;;
      ctx <- ctx_step before ctx ;;
      ctx <- ctx_step (tick env) ctx ;;
      ctx <- ctx_step after ctx ;;
      (if Nat.eqb (Nat.modulo index BACKTEST_BROADCAST_INTERVAL) 0 then
         let progress := 100 * inject_Z (Z.of_nat (S index)) / inject_Z (Z.of_nat total) in
         update_task (set_progress progress (now env)) ;;; broadcast
       else ret tt) ;;;
      candle_steps env total (S index) cs' ctx
  end.

Definition execute_backtest (env : Environment) : TaskM BacktestStatistic :=
  all_candles <- lift (get_candles env) ;;
  let total_candles := List.length all_candles in
  if Nat.eqb total_candles 0
  then throw (Other "No candles available for backtest") else
  let initial_capital := 10000 in
  fees <- lift (ccxt_fees env) ;;
  precision <- lift (ccxt_precision env) ;;
  context <- lift (new initial_capital fees precision) ;;
  context <- candle_steps env total_candles 0 all_candles context ;;
  context <- ctx_step end_ context ;;
  update_task (set_progress 100 (now env)) ;;;
  broadcast ;;;
  ret (calculate_backtest_statistic initial_capital (candles context) (trades context)).

Definition execute (now_start now_end : Z) (env : Environment) : TaskM unit :=
  update_task (fun t => mkTask Running (progress t) (statistic t) (error_message t)
                               (Some now_start) (completed_at t) now_start) ;;;
  broadcast ;;;
  result <- attempt (execute_backtest env) ;;
  (match result with
   | Ok stat =>
       update_task (fun t => mkTask Completed 100 (Some stat) (error_message t)
                                    (started_at t) (Some now_end) now_end)
   | Err e =>
       update_task (fun t => mkTask Failed (progress t) (statistic t)
                                    (Some (error_to_string e))
                                    (started_at t) (Some now_end) now_end)
   end) ;;;
  broadcast.

(** ** C8 *)

Definition pending_task : BacktestTask := mkTask Pending 0 None None None None 0.
Definition env_no_candles : Environment :=
  mkEnv (Ok []) (Ok fees0) (Ok prec0) (ret tt) 5.

(** C8, as stated, fails: on an empty candle window [execute] first sets the
    status to [Running] and broadcasts that snapshot, and only then fails. *)
Lemma no_candles_running_counterexample :
  exists t', In t' (sent (snd (execute 1 2 env_no_candles (mkTaskState pending_task []))))
             /\ status t' = Running.
Proof.
  eexists. split.
  - vm_compute. left. reflexivity.
  - reflexivity.
Qed.

(** C8 (amended): when the candle window is empty, [execute] sets the task
    to [Running] (with [started_at]) and broadcasts it, then the run fails
    with the no-candles error: the final status is [Failed], [error_message]
    is set, [completed_at] is set, the statistic is left as it was (absent
    for a task created [Pending] without one), and exactly these two
    snapshots are broadcast. *)
Theorem execute_no_candles (t : BacktestTask) (log : list BacktestTask)
  (now_start now_end : Z) (env : Environment) :
  get_candles env = Ok [] ->
  let r := execute now_start now_end env (mkTaskState t log) in
  fst r = Ok tt /\
  status (task (snd r)) = Failed /\
  error_message (task (snd r)) = Some "No candles available for backtest"%string /\
  statistic (task (snd r)) = statistic t /\
  completed_at (task (snd r)) = Some now_end /\
  exists running,
    sent (snd r) = log ++ [running; task (snd r)] /\
    status running = Running /\ started_at running = Some now_start.
Proof.
  intros Hc r. unfold r, execute, execute_backtest, update_task, broadcast, attempt.
  cbv beta iota zeta delta [bind get ret throw modify lift]. rewrite Hc. simpl.
  repeat split; try reflexivity.
  eexists. split; [rewrite <- app_assoc; reflexivity | split; reflexivity].
Qed.

Lemma execute_no_candles_witness :
  statistic (task (snd (execute 1 2 env_no_candles (mkTaskState pending_task [])))) = None /\
  status (task (snd (execute 1 2 env_no_candles (mkTaskState pending_task [])))) = Failed.
Proof.
  destruct (execute_no_candles pending_task [] 1 2 env_no_candles eq_refl)
    as (_ & Hs & _ & Hst & _).
  split; [exact Hst | exact Hs].
Defined.

Example execute_completed_ex :
  let st := snd (execute 1 2 (mkEnv (Ok [candle0; mkCandle 2000 100 120 95 110 1])
                                    (Ok fees0) (Ok prec0) (market_buy 1) 5)
                         (mkTaskState pending_task [])) in
  match status (task st), statistic (task st) with
  | Completed, Some stat => (st_buy_trades stat =? 2)%nat && (List.length (sent st) =? 4)%nat
  | _, _ => false
  end = true.
Proof. vm_compute. reflexivity. Qed.

(** * Further properties of the code *)

(** ** [MarketPrecision] *)

(** [round_price] is idempotent for every rounding mode and any step. *)
Theorem round_price_idempotent (p : MarketPrecision) (x : Q) (mode : RoundingMode) :
  round_price p (round_price p x mode) mode = round_price p x mode.
Proof.
  unfold round_price at 2.
  destruct (is_zero (price_precision p)) eqn:Z0.
  - unfold round_price. rewrite Z0. reflexivity.
  - unfold round_price. rewrite Z0. f_equal. f_equal.
    apply with_scale_round0_int.
    assert (Hs : ~ price_precision p == 0)
      by (unfold is_zero in Z0; intro E; apply Qeq_bool_iff in E; congruence).
    unfold Qdiv. rewrite <- Qmult_assoc, Qmult_inv_r by exact Hs. apply Qmult_1_r.
Qed.

Lemma q_floor_Qfloor (x : Q) : q_floor x = Qfloor x.
Proof. destruct x; reflexivity. Qed.

Lemma q_ceil_Qceiling (x : Q) : q_ceil x = Qceiling x.
Proof. destruct x; reflexivity. Qed.

(** With a positive amount step [s], rounding a non-negative value [Down]
    gives a multiple of [s] in [(x - s, x]], and rounding it [Up] gives one
    in [[x, x + s)]. *)
Theorem round_amount_quantization (p : MarketPrecision) (x : Q) :
  0 < amount_precision p -> 0 <= x ->
  let s := amount_precision p in
  (x - s < round_amount p x Down /\ round_amount p x Down <= x) /\
  (x <= round_amount p x Up /\ round_amount p x Up < x + s).
Proof.
  intros Hs Hx s.
  unfold round_amount. fold s.
  assert (Hs0 : 0 < s) by exact Hs. clearbody s. clear Hs. rename Hs0 into Hs.
  assert (Z0 : is_zero s = false).
  { unfold is_zero. destruct (Qeq_bool s 0) eqn:E; [|reflexivity].
    apply Qeq_bool_iff in E. lra. }
  rewrite Z0.
  set (y := x / s).
  assert (Hy : y * s == x) by (unfold y; field; apply Qnot_eq_sym, Qlt_not_eq, Hs).
  assert (Hy0 : 0 <= y) by (unfold y, Qdiv; apply Qmult_le_0_compat;
                            [exact Hx | apply Qinv_le_0_compat, Qlt_le_weak, Hs]).
  clearbody y.
  assert (Hny : (0 <= Qnum y)%Z).
  { destruct y as [a d]. unfold Qle in Hy0; simpl in Hy0 |- *. lia. }
  unfold with_scale_round0.
  destruct (0 <=? Qnum y)%Z eqn:E; [|apply Z.leb_nle in E; lia].
  rewrite q_floor_Qfloor, q_ceil_Qceiling.
  pose proof (Qfloor_le y) as F1. pose proof (Qlt_floor y) as F2.
  pose proof (Qle_ceiling y) as C1. pose proof (Qceiling_lt y) as C2.
  rewrite inject_Z_plus in F2. rewrite <- Z.add_opp_r, inject_Z_plus, inject_Z_opp in C2.
  assert (Hs' : 0 <= s) by (apply Qlt_le_weak, Hs).
  split; split.
  - pose proof (Qmult_lt_compat_r _ _ _ Hs F2) as G.
    setoid_rewrite Hy in G. setoid_replace ((inject_Z (Qfloor y) + inject_Z 1) * s)
      with (inject_Z (Qfloor y) * s + s) in G by (simpl; ring). lra.
  - pose proof (Qmult_le_compat_r _ _ _ F1 Hs') as G. setoid_rewrite Hy in G. exact G.
  - pose proof (Qmult_le_compat_r _ _ _ C1 Hs') as G. setoid_rewrite Hy in G. exact G.
  - pose proof (Qmult_lt_compat_r _ _ _ Hs C2) as G.
    setoid_rewrite Hy in G. setoid_replace ((inject_Z (Qceiling y) + - inject_Z 1) * s)
      with (inject_Z (Qceiling y) * s - s) in G by (simpl; ring). lra.
Qed.

Lemma round_amount_quantization_witness :
  let p := mkMarketPrecision 1 (1#10) in
  ((37#100) - (1#10) < round_amount p (37#100) Down /\ round_amount p (37#100) Down <= 37#100) /\
  (37#100 <= round_amount p (37#100) Up /\ round_amount p (37#100) Up < (37#100) + (1#10)).
Proof.
  exact (round_amount_quantization (mkMarketPrecision 1 (1#10)) (37#100) eq_refl
           ltac:(decide_q)).
Defined.

(** ** [StrategyContext]: error paths and edge cases *)

(** Without candles, [before] and every trading operation whose amount
    checks pass fail with "No candles available" and leave the context
    unchanged. *)
Theorem no_candle_operations_fail (self : StrategyContext) (price amount : Q) (i : Uuid) :
  candles self = [] ->
  let a := round_amount (precision self) amount Down in
  let err := Strategy "No candles available" in
  before self = (Err err, self) /\
  (0 < a -> market_buy amount self = (Err err, self)) /\
  (0 < a -> a <= position self -> market_sell amount self = (Err err, self)) /\
  (0 < a -> limit_buy price amount i self = (Err err, self)) /\
  (0 < a -> a <= position self -> limit_sell price amount i self = (Err err, self)).
Proof.
  intros Hc a err.
  assert (Hcan : candle self = Err err) by (unfold candle; rewrite Hc; reflexivity).
  split; [|split; [|split; [|split]]].
  - rewrite before_eq, Hcan. reflexivity.
  - intros Ha. unfold market_buy. unfold_monad. fold a.
    rewrite (proj2 (Qle_bool_false a 0) Ha), Hcan. reflexivity.
  - intros Ha Hp. unfold market_sell. unfold_monad. fold a.
    rewrite (proj2 (Qle_bool_false a 0) Ha), (proj2 (qgt_false _ _) Hp), Hcan. reflexivity.
  - intros Ha. unfold limit_buy. unfold_monad. fold a.
    rewrite (proj2 (Qle_bool_false a 0) Ha), Hcan. reflexivity.
  - intros Ha Hp. unfold limit_sell. unfold_monad. fold a.
    rewrite (proj2 (Qle_bool_false a 0) Ha), (proj2 (qgt_false _ _) Hp), Hcan. reflexivity.
Qed.

Definition ctx_no_candle : StrategyContext := mkCtx [] 100 2 [] [] fees0 prec0.

Lemma no_candle_operations_fail_witness :
  market_sell 1 ctx_no_candle = (Err (Strategy "No candles available"), ctx_no_candle) /\
  limit_buy 5 1 0%nat ctx_no_candle = (Err (Strategy "No candles available"), ctx_no_candle).
Proof.
  destruct (no_candle_operations_fail ctx_no_candle 5 1 0%nat eq_refl)
    as (_ & _ & Hs & Hb & _).
  split; [apply Hs | apply Hb]; decide_q.
Defined.

(** An amount that rounds (down, to the amount step) to zero or less is
    rejected by all four trading operations, before anything else is
    looked at, and the context is left unchanged. *)
Theorem nonpositive_amount_rejected (self : StrategyContext) (price amount : Q) (i : Uuid) :
  round_amount (precision self) amount Down <= 0 ->
  let err := Strategy "Amount must be positive" in
  market_buy amount self = (Err err, self) /\
  market_sell amount self = (Err err, self) /\
  limit_buy price amount i self = (Err err, self) /\
  limit_sell price amount i self = (Err err, self).
Proof.
  intros Ha err. apply Qle_bool_iff in Ha.
  unfold market_buy, market_sell, limit_buy, limit_sell. unfold_monad.
  rewrite !Ha. repeat split.
Qed.

Lemma nonpositive_amount_rejected_witness :
  market_buy (4#10000) ctx_b10 = (Err (Strategy "Amount must be positive"), ctx_b10).
Proof.
  refine (proj1 (nonpositive_amount_rejected ctx_b10 0 (4#10000) 0%nat _)). decide_q.
Defined.

(** Selling more than the position (after rounding) fails with "Insufficient
    base asset amount to sell" for [market_sell] and [limit_sell], whatever
    the candles, and leaves the context unchanged. *)
Theorem oversell_rejected (self : StrategyContext) (price amount : Q) (i : Uuid) :
  let a := round_amount (precision self) amount Down in
  0 < a -> position self < a ->
  let err := Strategy "Insufficient base asset amount to sell" in
  market_sell amount self = (Err err, self) /\
  limit_sell price amount i self = (Err err, self).
Proof.
  intros a Ha Hp err.
  unfold market_sell, limit_sell. unfold_monad. fold a.
  rewrite (proj2 (Qle_bool_false a 0) Ha), (proj2 (qgt_true _ _) Hp). split; reflexivity.
Qed.

Lemma oversell_rejected_witness :
  market_sell 3 ctx_no_candle
  = (Err (Strategy "Insufficient base asset amount to sell"), ctx_no_candle).
Proof.
  refine (proj1 (oversell_rejected ctx_no_candle 0 3 0%nat _ _)); decide_q.
Defined.

Lemma position_of_none {A} (p : A -> bool) (l : list A) :
  (forall x, In x l -> p x = false) -> position_of p l = None.
Proof.
  induction l as [|x l IH]; intros H; simpl; [reflexivity|].
  rewrite (H x (or_introl eq_refl)), IH; [reflexivity|]. intros y Hy. apply H. right. exact Hy.
Qed.

(** Cancelling an id that no resting order carries does nothing. *)
Theorem cancel_unknown_order_noop (self : StrategyContext) (order_id : Uuid) :
  ~ In order_id (map id (orders self)) ->
  cancel_order order_id self = (Ok tt, self).
Proof.
  intros Hn. unfold cancel_order. unfold_monad.
  rewrite position_of_none; [reflexivity|].
  intros o Ho. apply Nat.eqb_neq. intros E. apply Hn. rewrite <- E. apply in_map, Ho.
Qed.

Lemma cancel_unknown_order_noop_witness :
  cancel_order 9%nat ctx_c5 = (Ok tt, ctx_c5).
Proof. apply cancel_unknown_order_noop. simpl. intuition discriminate. Defined.

(** Rounding an already rounded amount with the same mode changes nothing
    (shared by the proofs below). *)
Lemma round_amount_round_amount (p : MarketPrecision) (x : Q) (mode : RoundingMode) :
  round_amount p (round_amount p x mode) mode = round_amount p x mode.
Proof.
  unfold round_amount at 2.
  destruct (is_zero (amount_precision p)) eqn:Z0.
  - unfold round_amount. rewrite Z0. reflexivity.
  - unfold round_amount. rewrite Z0. f_equal. f_equal.
    apply with_scale_round0_int.
    assert (Hs : ~ amount_precision p == 0)
      by (unfold is_zero in Z0; intro E; apply Qeq_bool_iff in E; congruence).
    unfold Qdiv. rewrite <- Qmult_assoc, Qmult_inv_r by exact Hs. apply Qmult_1_r.
Qed.

(** A [limit_buy] whose rounded price is at or above the current close is
    exactly a [market_buy] of the same amount (same errors, same context),
    returning [None] instead of an order id. *)
Theorem limit_buy_marketable_is_market_buy
  (self : StrategyContext) (c : Candle) (price amount : Q) (order_id : Uuid) :
  candle self = Ok c ->
  c_close c <= round_amount (precision self) price Down ->
  limit_buy price amount order_id self = (market_buy amount ;;; ret None) self.
Proof.
  intros Hc Hp. unfold limit_buy. unfold_monad.
  set (a := round_amount (precision self) amount Down).
  assert (Ema : market_buy a self = market_buy amount self).
  { unfold market_buy. unfold_monad. unfold a. rewrite round_amount_round_amount. reflexivity. }
  destruct (Qle_bool a 0) eqn:E1.
  - unfold market_buy. unfold_monad. fold a. rewrite E1. reflexivity.
  - rewrite Hc, (proj2 (Qle_bool_iff _ _) Hp), Ema. reflexivity.
Qed.

Lemma limit_buy_marketable_is_market_buy_witness :
  limit_buy 150 (5#100) 7%nat ctx_b10 = (market_buy (5#100) ;;; ret None) ctx_b10.
Proof.
  apply (limit_buy_marketable_is_market_buy ctx_b10 candle0); [reflexivity | decide_q].
Defined.

(** Symmetrically, a [limit_sell] whose rounded price is at or below the
    current close is exactly a [market_sell] of the same amount, returning
    [None]. *)
Theorem limit_sell_marketable_is_market_sell
  (self : StrategyContext) (c : Candle) (price amount : Q) (order_id : Uuid) :
  candle self = Ok c ->
  round_amount (precision self) price Down <= c_close c ->
  limit_sell price amount order_id self = (market_sell amount ;;; ret None) self.
Proof.
  intros Hc Hp. unfold limit_sell. unfold_monad.
  set (a := round_amount (precision self) amount Down).
  assert (Ema : market_sell a self = market_sell amount self).
  { unfold market_sell. unfold_monad. unfold a. rewrite round_amount_round_amount. reflexivity. }
  destruct (Qle_bool a 0) eqn:E1.
  - unfold market_sell. unfold_monad. fold a. rewrite E1. reflexivity.
  - destruct (qgt a (position self)) eqn:E2.
    + unfold market_sell. unfold_monad. fold a. rewrite E1, E2. reflexivity.
    + rewrite Hc, (proj2 (Qle_bool_iff _ _) Hp), Ema. reflexivity.
Qed.

Definition ctx_pos2 : StrategyContext := mkCtx [candle0] 10 2 [] [] fees0 prec0.

Lemma limit_sell_marketable_is_market_sell_witness :
  limit_sell 80 1 7%nat ctx_pos2 = (market_sell 1 ;;; ret None) ctx_pos2.
Proof.
  apply (limit_sell_marketable_is_market_sell ctx_pos2 candle0); [reflexivity | decide_q].
Defined.

(** Buying and then selling the same amount at market on the same candle
    gives the position back and costs the balance exactly twice the rounded
    taker fee; the journal gains the two trades and the resting orders are
    untouched. *)
Theorem market_buy_sell_roundtrip
  (s s1 s2 : StrategyContext) (c : Candle) (amount : Q) (u v : unit) :
  candle s = Ok c ->
  market_buy amount s = (Ok u, s1) ->
  market_sell amount s1 = (Ok v, s2) ->
  let a := round_amount (precision s) amount Down in
  let fee := round_amount (precision s) (c_close c * a * taker (fees s)) Up in
  position s2 == position s /\
  balance s2 == balance s - 2 * fee /\
  trades s2 = trades s ++ [mkTrade (c_timestamp c) MarketBuy (c_close c) a fee None;
                           mkTrade (c_timestamp c) MarketSell (c_close c) a fee None] /\
  orders s2 = orders s.
Proof.
  intros Hc Hb Hs a fee.
  destruct (market_buy_ok _ _ _ _ Hb) as (c1 & Hc1 & _ & _ & ->).
  rewrite Hc in Hc1. injection Hc1 as <-.
  destruct (market_sell_ok _ _ _ _ Hs) as (c2 & Hc2 & _ & _ & _ & ->).
  change (candle _) with (candle s) in Hc2. rewrite Hc in Hc2. injection Hc2 as <-.
  simpl. fold a fee. repeat split.
  - ring.
  - ring.
  - rewrite <- app_assoc. reflexivity.
Qed.

Lemma market_buy_sell_roundtrip_witness :
  position (snd (market_sell (5#100) (snd (market_buy (5#100) ctx_b10)))) == 0 /\
  balance (snd (market_sell (5#100) (snd (market_buy (5#100) ctx_b10)))) == 10 - 2 * (1#100).
Proof.
  destruct (market_buy_sell_roundtrip ctx_b10 (snd (market_buy (5#100) ctx_b10))
              (snd (market_sell (5#100) (snd (market_buy (5#100) ctx_b10))))
              candle0 (5#100) tt tt eq_refl eq_refl eq_refl) as (Hp & Hb & _).
  split; [exact Hp | rewrite Hb; reflexivity].
Defined.



(** ** [end]: every resting order is cancelled *)

(** What cancelling an order gives back: the reserved cost and fee of a
    [LimitBuy], the fee of a [LimitSell] (to the balance), and the reserved
    amount of a [LimitSell] (to the position). *)
Definition quote_refund (o : Order) : Q :=
  match order_type o with
  | OLimitBuy => o_price o * o_amount o + o_fee o
  | OLimitSell => o_fee o
  end.
Definition base_refund (o : Order) : Q :=
  match order_type o with OLimitBuy => 0 | OLimitSell => o_amount o end.

Lemma cancel_order_head (s : StrategyContext) (o : Order) (rest : list Order) :
  orders s = o :: rest ->
  exists s1, cancel_order (id o) s = (Ok tt, s1) /\
    orders s1 = rest /\ balance s1 == balance s + quote_refund o /\
    position s1 == position s + base_refund o /\
    trades s1 = trades s /\ candles s1 = candles s.
Proof.
  intros Ho. unfold cancel_order. unfold_monad. rewrite Ho. simpl.
  rewrite Nat.eqb_refl. simpl.
  unfold quote_refund, base_refund.
  destruct (order_type o); eexists; (split; [reflexivity|]); simpl;
    rewrite Ho; repeat split; try reflexivity; ring.
Qed.

Lemma for_each_cancel_all (l : list Order) (s : StrategyContext) :
  orders s = l ->
  exists s', for_each (map id l) cancel_order s = (Ok tt, s') /\
    orders s' = [] /\ balance s' == balance s + qsum (map quote_refund l) /\
    position s' == position s + qsum (map base_refund l) /\
    trades s' = trades s /\ candles s' = candles s.
Proof.
  revert s. induction l as [|o l IH]; intros s Ho.
  - exists s. simpl. repeat split; try reflexivity; try ring. exact Ho.
  - destruct (cancel_order_head s o l Ho) as (s1 & Ec & Eo & Eb & Ep & Et & Ecs).
    destruct (IH s1 Eo) as (s' & Ef & Eo' & Eb' & Ep' & Et' & Ecs').
    exists s'. simpl. unfold bind. rewrite Ec, Ef.
    repeat split; [exact Eo' | | | congruence | congruence].
    + rewrite Eb', Eb. ring.
    + rewrite Ep', Ep. ring.
Qed.

(** [end] always succeeds and leaves no resting order: every reservation
    is given back (cost and fee of the buys and fee of the sells to the
    balance, the amounts of the sells to the position); the journal and the
    candles are unchanged. *)
Theorem end_cancels_all_orders (self : StrategyContext) :
  exists self', end_ self = (Ok tt, self') /\
    orders self' = [] /\
    balance self' == balance self + qsum (map quote_refund (orders self)) /\
    position self' == position self + qsum (map base_refund (orders self)) /\
    trades self' = trades self /\ candles self' = candles self.
Proof.
  destruct (for_each_cancel_all (orders self) self eq_refl)
    as (s' & Ef & Eo & Eb & Ep & Et & Ec).
  exists s'. unfold end_. unfold_monad. rewrite Ef. repeat split; assumption.
Qed.

(** ** Sequences of operations *)

Lemma cancel_order_frame (i : Uuid) (s : StrategyContext) :
  let s' := snd (cancel_order i s) in
  candles s' = candles s /\ trades s' = trades s /\
  fees s' = fees s /\ precision s' = precision s.
Proof.
  destruct (cancel_order_cases i s) as [_ [E | (pos & o & _ & E)]]; simpl; rewrite E;
    [repeat split | destruct (order_type o); repeat split].
Qed.

Lemma for_each_cancel_frame (ids : list Uuid) (s s' : StrategyContext) (u : unit) :
  for_each ids cancel_order s = (Ok u, s') ->
  candles s' = candles s /\ trades s' = trades s /\
  fees s' = fees s /\ precision s' = precision s.
Proof.
  revert s. induction ids as [|i ids IH]; intros s H.
  - inversion H; subst. repeat split.
  - simpl in H. unfold bind in H.
    destruct (cancel_order_cases i s) as [Ef _].
    pose proof (cancel_order_frame i s) as Fr.
    destruct (cancel_order i s) as [r s1]. simpl in Ef, Fr. subst r.
    destruct (IH s1 H) as (A & B & C & D). destruct Fr as (A' & B' & C' & D').
    repeat split; congruence.
Qed.

(** One successful operation only appends to the candles and to the
    journal, and keeps the fees and the precision. *)
Lemma run_op_frame (op : Op) (s s' : StrategyContext) (u : unit) :
  run_op op s = (Ok u, s') ->
  (exists cs, candles s' = candles s ++ cs) /\ (exists ts, trades s' = trades s ++ ts) /\
  fees s' = fees s /\ precision s' = precision s.
Proof.
  intros H. destruct op as [c|a|a|p a i|p a i|i| | | ]; simpl in H.
  - inversion H; subst. split; [exists [c]; reflexivity|].
    split; [exists []; symmetry; apply app_nil_r | split; reflexivity].
  - destruct (market_buy_ok _ _ _ _ H) as (c & _ & _ & _ & ->). simpl.
    split; [exists []; symmetry; apply app_nil_r|].
    split; [eexists; reflexivity | split; reflexivity].
  - destruct (market_sell_ok _ _ _ _ H) as (c & _ & _ & _ & _ & ->). simpl.
    split; [exists []; symmetry; apply app_nil_r|].
    split; [eexists; reflexivity | split; reflexivity].
  - unfold bind, ret in H.
    destruct (limit_buy p a i s) as [[[r|]|e] s1] eqn:El; inversion H; subst.
    + destruct (limit_buy_some _ _ _ _ _ _ El) as [_ ->]. simpl.
      split; [exists []; symmetry; apply app_nil_r|].
      split; [exists []; symmetry; apply app_nil_r | split; reflexivity].
    + destruct (market_buy_ok _ _ _ _ (limit_buy_none _ _ _ _ _ El)) as (c & _ & _ & _ & ->).
      simpl. split; [exists []; symmetry; apply app_nil_r|].
      split; [eexists; reflexivity | split; reflexivity].
  - unfold bind, ret in H.
    destruct (limit_sell p a i s) as [[[r|]|e] s1] eqn:El; inversion H; subst.
    + destruct (limit_sell_some _ _ _ _ _ _ El) as [_ ->]. simpl.
      split; [exists []; symmetry; apply app_nil_r|].
      split; [exists []; symmetry; apply app_nil_r | split; reflexivity].
    + destruct (market_sell_ok _ _ _ _ (limit_sell_none _ _ _ _ _ El)) as (c & _ & _ & _ & _ & ->).
      simpl. split; [exists []; symmetry; apply app_nil_r|].
      split; [eexists; reflexivity | split; reflexivity].
  - pose proof (cancel_order_frame i s) as (A & B & C & D). rewrite H in A, B, C, D.
    simpl in A, B, C, D.
    split; [exists []; rewrite app_nil_r; exact A|].
    split; [exists []; rewrite app_nil_r; exact B | split; assumption].
  - rewrite before_eq in H. destruct (candle s) as [c|e]; [|discriminate].
    inversion H; subst.
    destruct (fold_fill_and_retain c (filter (fills c) (orders s)) s)
      as (Ec & Ef & Ep & Et & _ & _ & _).
    split; [exists []; rewrite app_nil_r; exact Ec|].
    split; [eexists; exact Et | split; assumption].
  - inversion H; subst. split; [exists []; symmetry; apply app_nil_r|].
    split; [exists []; symmetry; apply app_nil_r | split; reflexivity].
  - unfold end_ in H. monad_in H.
    destruct (for_each (map id (orders s)) cancel_order s) as [[x|e] s1] eqn:Ee;
      inversion H; subst.
    destruct (for_each_cancel_frame _ _ _ _ Ee) as (A & B & C & D).
    split; [exists []; rewrite app_nil_r; exact A|].
    split; [exists []; rewrite app_nil_r; exact B | split; assumption].
Qed.

(** Over any sequence of successful operations the journal of trades is
    append-only, and so is the candle history: what was recorded before is
    kept, in order, as a prefix. *)
Theorem journal_append_only (ops : list Op) (s s' : StrategyContext) :
  run_ops ops s = Some s' ->
  (exists ts, trades s' = trades s ++ ts) /\ (exists cs, candles s' = candles s ++ cs).
Proof.
  revert s. induction ops as [|op ops IH]; intros s H; simpl in H.
  - inversion H; subst. split; exists []; symmetry; apply app_nil_r.
  - destruct (run_op op s) as [[x|e] s1] eqn:Er; [|discriminate].
    destruct (run_op_frame op s s1 x Er) as ([cs1 Ec1] & [ts1 Et1] & _ & _).
    destruct (IH s1 H) as ([ts2 Et2] & [cs2 Ec2]).
    split; [exists (ts1 ++ ts2) | exists (cs1 ++ cs2)];
      rewrite app_assoc; congruence.
Qed.

Definition ctx_1000 : StrategyContext := mkCtx [] 1000 0 [] [] fees0 prec0.

Lemma journal_append_only_witness :
  exists ts, trades (run_from ops_witness ctx_1000) = trades ctx_1000 ++ ts.
Proof.
  refine (proj1 (journal_append_only ops_witness ctx_1000 _ _)). vm_compute. reflexivity.
Defined.

Definition PosInv (s : StrategyContext) : Prop :=
  0 <= position s /\ Forall (fun o => 0 < o_amount o) (orders s).

Lemma cancel_order_posinv (i : Uuid) (s : StrategyContext) :
  PosInv s -> PosInv (snd (cancel_order i s)).
Proof.
  intros (Hp & Ho).
  destruct (cancel_order_cases i s) as [_ [-> | (pos & o & En & ->)]]; [split; assumption|].
  assert (Ha : 0 < o_amount o)
    by (apply (proj1 (Forall_forall (fun o => 0 < o_amount o) (orders s)) Ho);
        eapply nth_error_In; exact En).
  destruct (order_type o); unfold PosInv; simpl;
    (split; [lra | apply Forall_remove_at, Ho]).
Qed.

Lemma for_each_cancel_posinv (ids : list Uuid) (s s' : StrategyContext) (u : unit) :
  PosInv s -> for_each ids cancel_order s = (Ok u, s') -> PosInv s'.
Proof.
  revert s. induction ids as [|i ids IH]; intros s Hs H.
  - inversion H; subst. exact Hs.
  - simpl in H. unfold bind in H.
    destruct (cancel_order_cases i s) as [Ef _].
    pose proof (cancel_order_posinv i s Hs) as Hs1.
    destruct (cancel_order i s) as [r s1]. simpl in Ef, Hs1. subst r.
    exact (IH s1 Hs1 H).
Qed.

Lemma run_op_posinv (op : Op) (s s' : StrategyContext) (u : unit) :
  PosInv s -> run_op op s = (Ok u, s') -> PosInv s'.
Proof.
  intros [Hp Ho] H. destruct op as [c|a|a|p a i|p a i|i| | | ]; simpl in H.
  - inversion H; subst. split; assumption.
  - destruct (market_buy_ok _ _ _ _ H) as (c & _ & Ha & _ & ->).
    split; simpl; [lra | exact Ho].
  - destruct (market_sell_ok _ _ _ _ H) as (c & _ & Ha & Hle & _ & ->).
    split; simpl; [lra | exact Ho].
  - unfold bind, ret in H.
    destruct (limit_buy p a i s) as [[[r|]|e] s1] eqn:El; inversion H; subst.
    + destruct (limit_buy_some_cond _ _ _ _ _ _ El) as [Ha _].
      destruct (limit_buy_some _ _ _ _ _ _ El) as [_ ->].
      split; simpl; [exact Hp|]. apply Forall_app. split; [exact Ho | constructor; auto].
    + destruct (market_buy_ok _ _ _ _ (limit_buy_none _ _ _ _ _ El)) as (c & _ & Ha & _ & ->).
      split; simpl; [lra | exact Ho].
  - unfold bind, ret in H.
    destruct (limit_sell p a i s) as [[[r|]|e] s1] eqn:El; inversion H; subst.
    + destruct (limit_sell_some_cond _ _ _ _ _ _ El) as (Ha & Hle & _).
      destruct (limit_sell_some _ _ _ _ _ _ El) as [_ ->].
      split; simpl; [lra|]. apply Forall_app. split; [exact Ho | constructor; auto].
    + destruct (market_sell_ok _ _ _ _ (limit_sell_none _ _ _ _ _ El))
        as (c & _ & Ha & Hle & _ & ->).
      split; simpl; [lra | exact Ho].
  - pose proof (cancel_order_posinv i s (conj Hp Ho)) as Hi. rewrite H in Hi. exact Hi.
  - rewrite before_eq in H. destruct (candle s) as [c|e]; [|discriminate].
    inversion H; subst.
    set (L := filter (fills c) (orders s)).
    destruct (fold_fill_and_retain c L s) as (_ & _ & _ & _ & Eo & Eq & _).
    assert (HL : Forall (fun o => 0 < o_amount o) L) by (apply Forall_filter', Ho).
    assert (Hq : 0 <= qsum (map buy_amount L)).
    { apply qsum_nonneg, Forall_map. eapply Forall_impl; [|exact HL].
      intros o Ha. unfold buy_amount. destruct (order_type o); [apply Qlt_le_weak, Ha | apply Qle_refl]. }
    split; [rewrite Eq; lra | rewrite Eo; apply Forall_filter', Ho].
  - inversion H; subst. split; assumption.
  - unfold end_ in H. monad_in H.
    destruct (for_each (map id (orders s)) cancel_order s) as [[x|e] s1] eqn:Ee;
      inversion H; subst.
    exact (for_each_cancel_posinv _ _ _ _ (conj Hp Ho) Ee).
Qed.

(** Whatever the fees, the precision and the prices a strategy passes, a
    context created by [new] never holds a negative position after any
    sequence of successful operations, and every resting order reserves a
    positive amount. *)
Theorem position_never_negative
  (b : Q) (fs : TradingFees) (prec : MarketPrecision) (ops : list Op)
  (s0 s' : StrategyContext) :
  new b fs prec = Ok s0 -> run_ops ops s0 = Some s' ->
  0 <= position s' /\ Forall (fun o => 0 < o_amount o) (orders s').
Proof.
  intros Hn. injection Hn as <-.
  assert (H0 : PosInv (mkCtx [] b 0 [] [] fs prec)) by (split; [apply Qle_refl | constructor]).
  revert H0. generalize (mkCtx [] b 0 [] [] fs prec) as s.
  induction ops as [|op ops IH]; intros s Hs H; simpl in H.
  - inversion H; subst. exact Hs.
  - destruct (run_op op s) as [[x|e] s1] eqn:Er; [|discriminate].
    exact (IH s1 (run_op_posinv op s s1 x Hs Er) H).
Qed.

Lemma position_never_negative_witness :
  0 <= position (run_from ops_negative_price (mkCtx [] 0 0 [] [] fees_zero prec_unit)).
Proof.
  refine (proj1 (position_never_negative 0 fees_zero prec_unit ops_negative_price _ _
                   eq_refl _)).
  vm_compute. reflexivity.
Defined.

(** ** The statistic of a backtest *)

(** The accumulator without the equity curve ([max_equity],
    [max_drawdown]), the only fields the candles feed. *)
Definition forget_equity (acc : StatAcc) : StatAcc :=
  mkAcc (s_balance acc) (s_position acc) (total_cost acc) 0 0
    (buy_trades acc) (sell_trades acc) (winning_trades acc) (losing_trades acc)
    (gross_profit acc) (gross_loss acc) (largest_win acc) (largest_loss acc)
    (trades_with_profit acc).

Lemma forget_process_trade (acc : StatAcc) (t : Trade) :
  forget_equity (process_trade acc t) = process_trade (forget_equity acc) t.
Proof.
  unfold process_trade, forget_equity. destruct (is_buy t); [reflexivity|]. simpl.
  repeat match goal with |- context [if ?b then _ else _] => destruct b end; reflexivity.
Qed.

Lemma forget_fold_process (l : list Trade) (acc : StatAcc) :
  forget_equity (fold_left process_trade l acc) = fold_left process_trade l (forget_equity acc).
Proof.
  revert acc. induction l as [|t l IH]; intros acc; simpl; [reflexivity|].
  rewrite IH, forget_process_trade. reflexivity.
Qed.

Lemma forget_update_equity (c : Candle) (acc : StatAcc) :
  forget_equity (update_equity c acc) = forget_equity acc.
Proof. reflexivity. Qed.

Lemma drain_fold (ts : Z) (acc acc' : StatAcc) (rest rest' : list Trade) :
  drain ts acc rest = (acc', rest') ->
  exists pre, rest = pre ++ rest' /\ acc' = fold_left process_trade pre acc.
Proof.
  revert acc. induction rest as [|t rest IH]; intros acc H; simpl in H.
  - inversion H; subst. exists []. split; reflexivity.
  - destruct (ts <? t_timestamp t)%Z.
    + inversion H; subst. exists []. split; reflexivity.
    + destruct (IH _ H) as (pre & -> & ->). exists (t :: pre). split; reflexivity.
Qed.

Lemma candle_loop_fold (cs : list Candle) (acc acc' : StatAcc) (rest rest' : list Trade) :
  candle_loop cs acc rest = (acc', rest') ->
  exists pre, rest = pre ++ rest' /\
    forget_equity acc' = forget_equity (fold_left process_trade pre acc).
Proof.
  revert acc rest. induction cs as [|c cs IH]; intros acc rest H; simpl in H.
  - inversion H; subst. exists []. split; reflexivity.
  - destruct (drain (c_timestamp c) acc rest) as [a1 r1] eqn:Ed.
    destruct (drain_fold _ _ _ _ _ Ed) as (pre1 & -> & ->).
    destruct (IH _ _ H) as (pre2 & -> & E).
    exists (pre1 ++ pre2). split; [apply app_assoc|].
    rewrite E, fold_left_app, !forget_fold_process, forget_update_equity,
      forget_fold_process. reflexivity.
Qed.

Lemma statistic_loops_forget (initial_capital : Q) (cs : list Candle) (ts : list Trade) :
  forget_equity (statistic_loops initial_capital cs ts)
  = forget_equity (fold_left process_trade ts (init_acc initial_capital)).
Proof.
  unfold statistic_loops.
  destruct (candle_loop cs (init_acc initial_capital) ts) as [acc rest] eqn:E.
  destruct (candle_loop_fold _ _ _ _ _ E) as (pre & -> & Ef).
  rewrite fold_left_app, !forget_fold_process, Ef, forget_fold_process. reflexivity.
Qed.

(** The profit-and-loss accounting of the statistic does not depend on the
    candles: every trade is processed exactly once and in journal order,
    whatever its timestamp, so every field but the equity curve
    ([max_equity], [max_drawdown]) equals a plain fold of [process_trade]
    over the trades. *)
Theorem statistic_accounting_ignores_candles
  (initial_capital : Q) (cs : list Candle) (ts : list Trade) :
  forget_equity (statistic_loops initial_capital cs ts)
  = forget_equity (fold_left process_trade ts (init_acc initial_capital)).
Proof. exact (statistic_loops_forget initial_capital cs ts). Qed.

(** A trade without its profit. *)
Definition strip_profit (t : Trade) : Trade :=
  mkTrade (t_timestamp t) (trade_type t) (t_price t) (t_amount t) (t_fee t) None.

Lemma process_trade_counts (acc : StatAcc) (t : Trade) :
  let acc' := process_trade acc t in
  buy_trades acc' = (buy_trades acc + if is_buy t then 1 else 0)%nat /\
  sell_trades acc' = (sell_trades acc + if is_buy t then 0 else 1)%nat /\
  map strip_profit (trades_with_profit acc') =
    map strip_profit (trades_with_profit acc) ++ [strip_profit t].
Proof.
  unfold process_trade. destruct (is_buy t); simpl.
  - rewrite map_app. repeat split; lia.
  - repeat match goal with |- context [if ?b then _ else _] => destruct b end;
      simpl; rewrite map_app; repeat split; lia.
Qed.

Lemma fold_process_counts (l : list Trade) (acc : StatAcc) :
  let acc' := fold_left process_trade l acc in
  buy_trades acc' = (buy_trades acc + List.length (filter is_buy l))%nat /\
  sell_trades acc' = (sell_trades acc + List.length (filter (fun t => negb (is_buy t)) l))%nat /\
  map strip_profit (trades_with_profit acc') =
    map strip_profit (trades_with_profit acc) ++ map strip_profit l.
Proof.
  revert acc. induction l as [|t l IH]; intros acc; simpl.
  - rewrite app_nil_r. repeat split; lia.
  - destruct (IH (process_trade acc t)) as (Eb & Es & Et).
    destruct (process_trade_counts acc t) as (Eb1 & Es1 & Et1).
    rewrite Eb, Es, Et, Eb1, Es1, Et1, <- app_assoc.
    destruct (is_buy t); simpl; repeat split; lia.
Qed.

(** [calculate_backtest_statistic] accounts for every trade: the total is
    the number of trades, the buy and sell counts are the numbers of buy
    and sell trades, and the returned trades are the input trades, in
    order, each with only its profit field filled in. *)
Theorem statistic_counts_trades (initial_capital : Q) (cs : list Candle) (ts : list Trade) :
  let st := calculate_backtest_statistic initial_capital cs ts in
  st_total_trades st = List.length ts /\
  st_buy_trades st = List.length (filter is_buy ts) /\
  st_sell_trades st = List.length (filter (fun t => negb (is_buy t)) ts) /\
  map strip_profit (st_trades st) = map strip_profit ts.
Proof.
  intros st. pose proof (statistic_loops_forget initial_capital cs ts) as E.
  destruct (fold_process_counts ts (init_acc initial_capital)) as (Eb & Es & Et).
  simpl in Eb, Es, Et.
  unfold st, calculate_backtest_statistic; simpl.
  unfold forget_equity in E. injection E as _ _ _ Hb Hs _ _ _ _ _ _ Ht.
  rewrite Hb, Hs, Ht, Eb, Es, Et.
  split; [|split; [reflexivity | split; reflexivity]].
  clear. induction ts as [|t ts IH]; simpl; [reflexivity|].
  destruct (is_buy t); simpl; lia.
Qed.

Definition StatInv (initial_capital : Q) (acc : StatAcc) : Prop :=
  (winning_trades acc + losing_trades acc <= sell_trades acc)%nat /\
  0 <= largest_win acc /\ largest_win acc <= gross_profit acc /\
  gross_loss acc <= largest_loss acc /\ largest_loss acc <= 0 /\
  initial_capital <= max_equity acc /\ 0 <= max_drawdown acc.

Lemma process_trade_statinv (ic : Q) (acc : StatAcc) (t : Trade) :
  StatInv ic acc -> StatInv ic (process_trade acc t).
Proof.
  intros (Hn & Hw0 & Hw & Hl & Hl0 & He & Hd).
  unfold process_trade. destruct (is_buy t).
  - unfold StatInv; simpl. repeat split; assumption.
  - simpl.
    match goal with |- context [qgt ?p 0] => set (pr := p) end.
    destruct (qgt pr 0) eqn:E1.
    + apply qgt_true in E1.
      destruct (qgt pr (largest_win acc)) eqn:E2; [apply qgt_true in E2 | apply qgt_false in E2];
        unfold StatInv; simpl; repeat split; try assumption; try lia; lra.
    + apply qgt_false in E1.
      destruct (qlt pr 0) eqn:E3.
      * unfold qlt in E3. apply negb_true_iff, Qle_bool_false in E3.
        destruct (qlt pr (largest_loss acc)) eqn:E4;
          [unfold qlt in E4; apply negb_true_iff, Qle_bool_false in E4 | apply qlt_false in E4];
          unfold StatInv; simpl; repeat split; try assumption; try lia; lra.
      * unfold StatInv; simpl. repeat split; try assumption; lia.
Qed.

Lemma update_equity_statinv (ic : Q) (c : Candle) (acc : StatAcc) :
  StatInv ic acc -> StatInv ic (update_equity c acc).
Proof.
  intros (Hn & Hw0 & Hw & Hl & Hl0 & He & Hd).
  unfold update_equity.
  set (hv := s_position acc * c_high c + s_balance acc).
  set (lv := s_position acc * c_low c + s_balance acc).
  destruct (qgt hv (max_equity acc)) eqn:E1;
    [apply qgt_true in E1 | apply qgt_false in E1];
  match goal with |- context [qgt (?me - lv) (max_drawdown acc)] =>
    destruct (qgt (me - lv) (max_drawdown acc)) eqn:E2;
    [apply qgt_true in E2 | apply qgt_false in E2]
  end;
  unfold StatInv; simpl; repeat split; try assumption; lra.
Qed.

Lemma fold_process_statinv (ic : Q) (l : list Trade) (acc : StatAcc) :
  StatInv ic acc -> StatInv ic (fold_left process_trade l acc).
Proof.
  revert acc. induction l as [|t l IH]; intros acc H; simpl; [exact H|].
  apply IH, process_trade_statinv, H.
Qed.

Lemma candle_loop_statinv (ic : Q) (cs : list Candle) (acc acc' : StatAcc)
  (rest rest' : list Trade) :
  StatInv ic acc -> candle_loop cs acc rest = (acc', rest') -> StatInv ic acc'.
Proof.
  revert acc rest. induction cs as [|c cs IH]; intros acc rest Hi H; simpl in H.
  - inversion H; subst. exact Hi.
  - destruct (drain (c_timestamp c) acc rest) as [a1 r1] eqn:Ed.
    destruct (drain_fold _ _ _ _ _ Ed) as (pre1 & _ & ->).
    exact (IH _ _ (update_equity_statinv _ _ _ (fold_process_statinv _ _ _ Hi)) H).
Qed.

(** Bounds [calculate_backtest_statistic] always keeps: winning and losing
    sells together are at most the sells (a sell of zero profit is
    neither), the largest win is between [0] and the gross profit, the
    largest loss between the gross loss and [0], the maximum equity is at
    least the initial capital and the maximum drawdown is non-negative. *)
Theorem statistic_bounds (initial_capital : Q) (cs : list Candle) (ts : list Trade) :
  let st := calculate_backtest_statistic initial_capital cs ts in
  (st_winning_trades st + st_losing_trades st <= st_sell_trades st)%nat /\
  0 <= st_largest_win st /\ st_largest_win st <= st_gross_profit st /\
  st_gross_loss st <= st_largest_loss st /\ st_largest_loss st <= 0 /\
  initial_capital <= st_max_equity st /\ 0 <= st_max_drawdown st.
Proof.
  intros st. unfold st, calculate_backtest_statistic, statistic_loops. simpl.
  destruct (candle_loop cs (init_acc initial_capital) ts) as [acc rest] eqn:E.
  assert (H0 : StatInv initial_capital (init_acc initial_capital)).
  { unfold StatInv, init_acc; simpl. repeat split; try lia; apply Qle_refl. }
  exact (fold_process_statinv _ _ _ (candle_loop_statinv _ _ _ _ _ _ H0 E)).
Qed.

(** ** [execute]: the final state of a task *)

(** [execute_backtest] only moves the progress (and [updated_at]) of the
    task and appends to the broadcast log. *)
Definition task_steps (st st' : TaskState) : Prop :=
  status (task st') = status (task st) /\ statistic (task st') = statistic (task st) /\
  error_message (task st') = error_message (task st) /\
  started_at (task st') = started_at (task st) /\
  completed_at (task st') = completed_at (task st) /\
  exists l, sent st' = sent st ++ l.

Definition Preserves {A} (m : TaskM A) : Prop :=
  forall st r st', m st = (r, st') -> task_steps st st'.

Lemma task_steps_refl (st : TaskState) : task_steps st st.
Proof. repeat split. exists []. symmetry. apply app_nil_r. Qed.

Lemma task_steps_trans (a b c : TaskState) :
  task_steps a b -> task_steps b c -> task_steps a c.
Proof.
  intros (A1 & A2 & A3 & A4 & A5 & [l1 A6]) (B1 & B2 & B3 & B4 & B5 & [l2 B6]).
  repeat split; try congruence. exists (l1 ++ l2). rewrite B6, A6, app_assoc. reflexivity.
Qed.

Lemma preserves_bind {A B} (m : TaskM A) (k : A -> TaskM B) :
  Preserves m -> (forall a, Preserves (k a)) -> Preserves (bind m k).
Proof.
  intros Hm Hk st r st' H. unfold bind in H.
  destruct (m st) as [[a|e] s1] eqn:E.
  - exact (task_steps_trans _ _ _ (Hm _ _ _ E) (Hk a _ _ _ H)).
  - inversion H; subst. exact (Hm _ _ _ E).
Qed.

Lemma preserves_state {A} (m : TaskM A) :
  (forall st, snd (m st) = st) -> Preserves m.
Proof.
  intros Hm st r st' H. pose proof (Hm st) as E. rewrite H in E. simpl in E. subst.
  apply task_steps_refl.
Qed.

Lemma preserves_ctx_step (m : CtxM unit) (ctx : StrategyContext) : Preserves (ctx_step m ctx).
Proof. apply preserves_state. intros st. unfold ctx_step. destruct (m ctx) as [[]]; reflexivity. Qed.

Lemma preserves_progress (p : Q) (t0 : Z) : Preserves (update_task (set_progress p t0)).
Proof.
  intros st r st' H. inversion H; subst. repeat split. exists []. symmetry. apply app_nil_r.
Qed.

Lemma preserves_broadcast : Preserves broadcast.
Proof. intros st r st' H. inversion H; subst. repeat split. eexists. reflexivity. Qed.

Lemma candle_steps_preserves (env : Environment) (total index : nat) (cs : list Candle)
  (ctx : StrategyContext) : Preserves (candle_steps env total index cs ctx).
Proof.
  revert index ctx. induction cs as [|c cs IH]; intros index ctx; simpl.
  - apply preserves_state. reflexivity.
  - repeat (apply preserves_bind; [apply preserves_ctx_step|]; intros ?).
    apply preserves_bind; [|intros _; apply IH].
    destruct (Nat.eqb _ 0).
    + apply preserves_bind; [apply preserves_progress | intros _; apply preserves_broadcast].
    + apply preserves_state. reflexivity.
Qed.

Lemma execute_backtest_preserves (env : Environment) : Preserves (execute_backtest env).
Proof.
  unfold execute_backtest.
  apply preserves_bind; [apply preserves_state; reflexivity | intros all].
  destruct (Nat.eqb _ 0); [apply preserves_state; reflexivity|].
  do 3 (apply preserves_bind; [apply preserves_state; reflexivity | intros ?]).
  apply preserves_bind; [apply candle_steps_preserves | intros ?].
  apply preserves_bind; [apply preserves_ctx_step | intros ?].
  apply preserves_bind; [apply preserves_progress | intros _].
  apply preserves_bind; [apply preserves_broadcast | intros _].
  apply preserves_state. reflexivity.
Qed.

(** [execute] always returns [Ok]: it marks the task [Running] (setting
    [started_at]) and broadcasts it, runs the backtest, and then the task
    ends [Completed] with progress 100 and the computed statistic when the
    backtest succeeds, or [Failed] with the error's message (its statistic
    left as it was) when it fails; either way [completed_at] and
    [updated_at] are the end time, [started_at] is kept, and the final task
    is the last snapshot broadcast, after the [Running] one. *)
Theorem execute_outcome (t : BacktestTask) (log : list BacktestTask)
  (now_start now_end : Z) (env : Environment) :
  let running := mkTask Running (progress t) (statistic t) (error_message t)
                        (Some now_start) (completed_at t) now_start in
  let r := execute now_start now_end env (mkTaskState t log) in
  let t' := task (snd r) in
  fst r = Ok tt /\
  started_at t' = Some now_start /\ completed_at t' = Some now_end /\ updated_at t' = now_end /\
  match fst (execute_backtest env (mkTaskState running (log ++ [running]))) with
  | Ok stat => status t' = Completed /\ progress t' = 100 /\ statistic t' = Some stat
  | Err e => status t' = Failed /\ error_message t' = Some (error_to_string e) /\
             statistic t' = statistic t
  end /\
  exists mid, sent (snd r) = log ++ running :: mid ++ [t'].
Proof.
  intros running r t'. unfold t', r, execute, attempt.
  cbv beta iota zeta delta [bind get ret throw modify lift update_task broadcast]. simpl.
  fold running.
  destruct (execute_backtest env (mkTaskState running (log ++ [running]))) as [res st2] eqn:E.
  destruct (execute_backtest_preserves env _ _ _ E)
    as (H1 & H2 & H3 & H4 & H5 & [l H6]). simpl in H1, H2, H3, H4, H5, H6.
  destruct res as [stat|e]; simpl.
  - repeat split; [exact H4|]. exists l. rewrite H6, <- !app_assoc. reflexivity.
  - repeat split; [exact H4 | exact H2 |]. exists l. rewrite H6, <- !app_assoc. reflexivity.
Qed.

(** ** [net_profit]: rounding to cents *)

Lemma with_scale_round0_half_up_bound (x : Q) :
  - (1#2) <= inject_Z (with_scale_round0 x HalfUp) - x <= 1#2.
Proof.
  destruct x as [a d]. unfold with_scale_round0, q_floor. cbv zeta.
  change (Qnum (a # d)) with a. change (Qden (a # d)) with d.
  pose proof (Z.div_mod a (Zpos d) ltac:(lia)) as Hdm.
  pose proof (Z.mod_pos_bound a (Zpos d) ltac:(lia)) as Hr.
  set (fl := (a / Zpos d)%Z) in *. set (r := (a mod Zpos d)%Z) in *.
  assert (Hfr : (a - fl * Zpos d = r)%Z) by lia. rewrite Hfr.
  clearbody fl r.
  destruct (Z.compare_spec (2 * r) (Zpos d)) as [E|E|E];
    [destruct (0 <=? a)%Z|..];
    unfold Qle, Qminus, Qplus, Qopp; simpl; rewrite ?Pos2Z.inj_mul;
    (split; [change (Z.neg d) with (- Z.pos d)%Z|]); nia.
Qed.

(** The net profit reported is the sum of gross profit and gross loss
    rounded half-up to cents: it differs from that sum by at most half a
    cent. *)
Theorem net_profit_within_half_cent (initial_capital : Q) (cs : list Candle) (ts : list Trade) :
  let st := calculate_backtest_statistic initial_capital cs ts in
  - (1#200) <= st_net_profit st - (st_gross_profit st + st_gross_loss st) <= 1#200.
Proof.
  intros st. unfold st, calculate_backtest_statistic. simpl.
  generalize (gross_profit (statistic_loops initial_capital cs ts)
              + gross_loss (statistic_loops initial_capital cs ts)). intros y.
  unfold with_scale_round2_half_up.
  destruct (with_scale_round0_half_up_bound (y * 100)) as [H1 H2].
  set (n := inject_Z (with_scale_round0 (y * 100) HalfUp)) in *.
  clearbody n.
  unfold Qdiv. change (/ 100) with (1#100).
  split; lra.
Qed.
